(** * generation.py: decoding summarization models over a JSON-lines dataset

    A shallow embedding of [generation.py] and the properties of its
    post-processor, its batching, its configuration checks, its dataset
    loader and its output file.

    Python [str] values are modelled as [string], one character of the
    Python string per character here (nothing below depends on the
    alphabet); the dictionary [MODEL_CHECKPOINTS] and the file system as
    [gmap string string]. What torch, transformers and [json] do is taken
    as given: the batching is modelled from its description; the parser,
    the loaders, the collation of a batch, the subscript on a collated batch
    and the model calls are the members of the class [Library]. *)

From Stdlib Require Import Ascii.
From Stdlib Require String.
From stdpp Require Import gmap strings list.

(** ** Python string primitives used by the script *)

Module PyStr.

(** [s[k:]] *)
Fixpoint drop (k : nat) (s : string) : string :=
  match k, s with
  | S k', String _ s' => drop k' s'
  | _, _ => s
  end.

(** The scan of [s.replace(old, new)] for a non-empty [old]: from the left,
    where [old] matches emit [new] and resume behind the match, otherwise
    copy one character. [skip] counts the characters of a match that are
    still to be passed over. *)
Fixpoint replace_go (old new : string) (skip : nat) (s : string) : string :=
  match s with
  | EmptyString => EmptyString
  | String c s' =>
      match skip with
      | S k => replace_go old new k s'
      | O =>
          if String.prefix old s
          then new +:+ replace_go old new (String.length old - 1) s'
          else String c (replace_go old new 0 s')
      end
  end.

(** With an empty [old], Python puts [new] before every character and at
    the end. *)
Fixpoint intersperse (new s : string) : string :=
  match s with
  | EmptyString => new
  | String c s' => new +:+ String c (intersperse new s')
  end.

(** [s.replace(old, new)] *)
Definition replace (old new s : string) : string :=
  match old with
  | EmptyString => intersperse new s
  | String _ _ => replace_go old new 0 s
  end.

(** [old in s] as a proposition: [s] has an occurrence of [old]. *)
Definition occurs (old s : string) : Prop :=
  ∃ a b, s = a +:+ old +:+ b.

(** [old in s], computed. *)
Fixpoint contains (old s : string) : bool :=
  String.prefix old s ||
  match s with
  | EmptyString => false
  | String _ s' => contains old s'
  end.

(** Every [c] of [s] turned into [d]. *)
Fixpoint translate (c d : ascii) (s : string) : string :=
  match s with
  | EmptyString => EmptyString
  | String x s' => String (if Ascii.eqb x c then d else x) (translate c d s')
  end.

End PyStr.

(** ** The post-processor *)

(** The generation artifact that [postprocess_data] removes. *)
Definition marker : string := "<n>".

(** A string with no occurrence of the marker. *)
Definition marker_free (s : string) : Prop := ¬ PyStr.occurs marker s.

(** [x.replace('<n>', ' ')], the body of the comprehension. *)
Definition postprocess_one (x : string) : string :=
  PyStr.replace marker " " x.

(** [postprocess_data(decoded)]: [[x.replace('<n>', ' ') for x in decoded]]. *)
Definition postprocess_data (decoded : list string) : list string :=
  map postprocess_one decoded.

(** ** Batching: the loader's batch sampler *)

(** Modelled from the spec: the batch iterator is [torch.utils.data.DataLoader],
    which is not part of this repository. The script builds it with
    [batch_size=BATCH_SIZE] and the defaults (no shuffling, last batch kept),
    so the indices are visited in order, collected into a batch that is
    handed out when it holds [batch_size] of them, and what is left at the
    end is handed out as a smaller final batch. *)
Fixpoint batch_go {A : Type} (batch_size : nat) (batch sampler : list A)
  : list (list A) :=
  match sampler with
  | [] => if bool_decide (0 < length batch) then [batch] else []
  | idx :: rest =>
      let batch' := batch ++ [idx] in
      if bool_decide (length batch' = batch_size)
      then batch' :: batch_go batch_size [] rest
      else batch_go batch_size batch' rest
  end.

Definition BatchSampler {A : Type} (batch_size : nat) (sampler : list A)
  : list (list A) :=
  batch_go batch_size [] sampler.

Definition BATCH_SIZE : nat := 8.

(** ** Model aliases *)

Definition BART_CNNDM_CHECKPOINT : string := "facebook/bart-large-cnn".
Definition BART_XSUM_CHECKPOINT : string := "facebook/bart-large-xsum".
Definition PEGASUS_CNNDM_CHECKPOINT : string := "google/pegasus-cnn_dailymail".
Definition PEGASUS_XSUM_CHECKPOINT : string := "google/pegasus-xsum".
Definition PEGASUS_NEWSROOM_CHECKPOINT : string := "google/pegasus-newsroom".
Definition PEGASUS_MULTINEWS_CHECKPOINT : string := "google/pegasus-multi_news".

Definition MODEL_CHECKPOINTS : gmap string string :=
  <["bart-xsum" := BART_XSUM_CHECKPOINT]>
  (<["bart-cnndm" := BART_CNNDM_CHECKPOINT]>
  (<["pegasus-xsum" := PEGASUS_XSUM_CHECKPOINT]>
  (<["pegasus-cnndm" := PEGASUS_CNNDM_CHECKPOINT]>
  (<["pegasus-newsroom" := PEGASUS_NEWSROOM_CHECKPOINT]>
  (<["pegasus-multinews" := PEGASUS_MULTINEWS_CHECKPOINT]> ∅))))).

(** ** Paths: [os.path.basename] and [os.path.splitext] (POSIX) *)

Module PosixPath.

(** [s.rfind(c)] for a one-character [c]: the index of the last [c] in
    [s], or [-1]. [i] is the index of the head of [s], [last] the result
    so far. *)
Fixpoint rfind_go (c : ascii) (s : string) (i last : Z) : Z :=
  match s with
  | EmptyString => last
  | String d s' => rfind_go c s' (i + 1) (if Ascii.eqb d c then i else last)
  end.

Definition rfind (c : ascii) (s : string) : Z := rfind_go c s 0 (-1).

(** [p[:k]] and [p[k:]] for [0 <= k] *)
Fixpoint take (k : nat) (s : string) : string :=
  match k, s with
  | S k', String c s' => String c (take k' s')
  | _, _ => EmptyString
  end.

Definition slice_to (k : Z) (p : string) : string := take (Z.to_nat k) p.
Definition slice_from (k : Z) (p : string) : string := PyStr.drop (Z.to_nat k) p.

(** [i = p.rfind('/') + 1; return p[i:]] *)
Definition basename (p : string) : string :=
  let i := (rfind "/" p + 1)%Z in
  slice_from i p.

(** The loop of [_splitext] that skips the leading dots of the file name:
    [true] when some character at one of the [n] indices from [start] on
    is not a dot. *)
Fixpoint has_non_dot (p : string) (start n : nat) : bool :=
  match n with
  | O => false
  | S n' =>
      match String.get start p with
      | Some c => if Ascii.eqb c "." then has_non_dot p (S start) n' else true
      | None => true
      end
  end.

(** [os.path.splitext(p)]: the extension starts at the last dot of the
    last path component, unless that component has only leading dots. *)
Definition splitext (p : string) : string * string :=
  let sepIndex := rfind "/" p in
  let dotIndex := rfind "." p in
  if bool_decide (sepIndex < dotIndex)%Z
  then
    let filenameIndex := (sepIndex + 1)%Z in
    if has_non_dot p (Z.to_nat filenameIndex) (Z.to_nat (dotIndex - filenameIndex))
    then (slice_to dotIndex p, slice_from dotIndex p)
    else (p, EmptyString)
  else (p, EmptyString).

End PosixPath.

(** ** Values, exceptions and the world the script runs in *)

#[local] Set Warnings "-register-all".

(** The value [json.loads] returns for a line. A number keeps its literal;
    an object is the list of the items of the resulting [dict]. *)
Inductive json : Type :=
  | JNull
  | JBool (b : bool)
  | JNumber (literal : string)
  | JString (s : string)
  | JArray (items : list json)
  | JObject (items : list (string * json)).

(** The exceptions that leave the script. [LibraryError] stands for any
    error raised inside torch or transformers. *)
Inductive exn : Type :=
  | ValueError (msg : string)
  | KeyError (key : string)
  | IndexError
  | TypeError
  | FileNotFoundError (path : string)
  | JSONDecodeError (line : string)
  | LibraryError.

Inductive outcome (A : Type) : Type :=
  | Returned (a : A)
  | Raised (e : exn).
Arguments Returned {A} a.
Arguments Raised {A} e.

(** What the script does to its surroundings, in the order it does it.
    [EvGenerate batch] is the call of the model for the batch made of the
    records [batch]. *)
Inductive event : Type :=
  | EvLoadModel (name : string)
  | EvLoadTokenizer (name : string)
  | EvOpenRead (path : string)
  | EvOpenWrite (path : string)
  | EvGenerate (batch : list json)
  | EvWrite (path text : string).

(** The files, each path with its text, and the events so far. Two
    different path strings name two different files. *)
Record world : Type := World {
  files : gmap string string;
  log : list event
}.

(** The status the interpreter exits with: an exception that nobody
    catches ends the process with status 1. *)
Definition exit_status {A : Type} (o : outcome A) : Z :=
  match o with
  | Returned _ => 0
  | Raised _ => 1
  end.

(** *** A state and exception monad *)

Definition M (A : Type) : Type := world → outcome A * world.

#[global] Instance M_ret : MRet M := λ A a w, (Returned a, w).

#[global] Instance M_bind : MBind M := λ A B k m w,
  match m w with
  | (Returned a, w') => k a w'
  | (Raised e, w') => (Raised e, w')
  end.

Definition raise {A : Type} (e : exn) : M A := λ w, (Raised e, w).

Definition emit (e : event) : M unit :=
  λ w, (Returned tt, World (files w) (log w ++ [e])).

Definition lift {A : Type} (o : outcome A) : M A := λ w, (o, w).

Definition or_raise {A : Type} (e : exn) (o : option A) : outcome A :=
  match o with
  | Some a => Returned a
  | None => Raised e
  end.

(** [for x in l: body(x)] *)
Fixpoint for_each {A : Type} (l : list A) (body : A → M unit) : M unit :=
  match l with
  | [] => mret tt
  | x :: l' => body x;; for_each l' body
  end.

(** [[f(x) for x in l]] where [f] may raise *)
Fixpoint comprehension {A B : Type} (f : A → outcome B) (l : list A)
  : outcome (list B) :=
  match l with
  | [] => Returned []
  | x :: l' =>
      match f x with
      | Raised e => Raised e
      | Returned y =>
          match comprehension f l' with
          | Raised e => Raised e
          | Returned ys => Returned (y :: ys)
          end
      end
  end.

(** *** Files *)

Definition LF : ascii := "010"%char.
Definition newline : string := String LF EmptyString.

(** [for line in fd]: the lines of a text, each with its line feed; a last
    line without one is a line too. The text is what Python's text layer
    hands over, line ends already translated. *)
Fixpoint lines (text : string) : list string :=
  match text with
  | EmptyString => []
  | String c text' =>
      if Ascii.eqb c LF then String c EmptyString :: lines text'
      else match lines text' with
           | [] => [String c EmptyString]
           | l :: ls => String c l :: ls
           end
  end.

Definition lookup_file (p : string) : M string :=
  λ w, (or_raise (FileNotFoundError p) (files w !! p), w).

Definition update_files (f : gmap string string → gmap string string) : M unit :=
  λ w, (Returned tt, World (f (files w)) (log w)).

(** [open(path)]; [path] is [None] when the option was not given. *)
Definition open_read (path : option string) : M string :=
  match path with
  | None => raise TypeError
  | Some p => emit (EvOpenRead p);; lookup_file p
  end.

(** [open(path, 'w')]: the file is created, or emptied when it exists. *)
Definition open_write (p : string) : M unit :=
  emit (EvOpenWrite p);; update_files (insert p EmptyString).

(** [fd.write(text)] on a file opened with [open_write p]. *)
Definition write (p text : string) : M unit :=
  emit (EvWrite p text);; update_files (alter (λ old, old +:+ text) p).

(** ** The libraries behind the script *)

(** [json.loads], the model and tokenizer loaders, the collation of the
    records of a batch by the loader, the subscript [raw_data[key]] on what
    the collation returns, and the three calls the loop makes on model and
    tokenizer. For the loaders and the three calls [None] is an exception
    raised inside the library; collation and subscript raise what torch and
    Python raise. *)
Class Library : Type := {
  Model : Type;
  Tokenizer : Type;
  Collated : Type;
  Documents : Type;
  Encoding : Type;
  Generated : Type;
  json_loads : string → option json;
  AutoModel_from_pretrained : string → option Model;
  AutoTokenizer_from_pretrained : string → option Tokenizer;
  default_collate : list json → outcome Collated;
  getitem : Collated → string → outcome Documents;
  tokenize : Tokenizer → Documents → option Encoding;
  generate : Model → Encoding → option Generated;
  batch_decode : Tokenizer → Generated → option (list string)
}.

(** ** The script *)

Section Script.
Context `{Library}.

(** *** [class JSONDataset] *)

(** [__init__]: [self.data = [json.loads(line) for line in fd]] *)
Definition JSONDataset_init (data_path : option string) : M (list json) :=
  text ← open_read data_path;
  lift (comprehension
          (λ line, or_raise (JSONDecodeError line) (json_loads line))
          (lines text)).

(** [__len__] *)
Definition JSONDataset_len (data : list json) : nat := length data.

(** [__getitem__] *)
Definition JSONDataset_getitem (data : list json) (idx : nat) : outcome json :=
  or_raise IndexError (data !! idx).

(** *** The loader over the dataset *)

(** [DataLoader(dataset, batch_size=...)]: the indices [0 .. len-1] in
    batches, each batch fetched item by item and then collated when the loop
    reaches it. *)
Definition DataLoader (data : list json) (batch_size : nat) : list (list nat) :=
  BatchSampler batch_size (seq 0 (JSONDataset_len data)).

Definition fetch (data : list json) (indices : list nat) : outcome (list json) :=
  comprehension (JSONDataset_getitem data) indices.

(** *** The main program *)

(** [argparse]'s namespace: an option that is not given is [None]. *)
Record args : Type := Args {
  model : option string;
  model_name_or_path : option string;
  data_path : option string
}.

(** Python's truth value of an option: [None] and [''] are false. *)
Definition truthy (o : option string) : bool :=
  match o with
  | Some (String _ _) => true
  | _ => false
  end.

Definition value (o : option string) : string := default EmptyString o.

(** The two checks on the model options. *)
Definition check_args (a : args) : outcome unit :=
  if negb (truthy (model a) || truthy (model_name_or_path a))
  then Raised (ValueError "Model is required")
  else if truthy (model a) && truthy (model_name_or_path a)
  then Raised (ValueError "Specify model or model_name_or_path but not both")
  else Returned tt.

(** The pair [(model_name_or_path, file_model_name)]. *)
Definition resolve_model (a : args) : outcome (string * string) :=
  if truthy (model a)
  then
    match MODEL_CHECKPOINTS !! value (model a) with
    | Some checkpoint => Returned (checkpoint, value (model a))
    | None => Raised (KeyError (value (model a)))
    end
  else
    Returned (value (model_name_or_path a),
              PyStr.replace "/" "-" (value (model_name_or_path a))).

(** [f'{file_model_name}.{file_dataset_name}.predictions'] *)
Definition predictions_filename (file_model_name path : string) : string :=
  let file_dataset_name := (PosixPath.splitext (PosixPath.basename path)).1 in
  file_model_name +:+ "." +:+ file_dataset_name +:+ ".predictions".

(** The body of the loop over the batches. *)
Definition step (m : Model) (tokenizer : Tokenizer) (data : list json)
    (filename : string) (indices : list nat) : M unit :=
  batch_records ← lift (fetch data indices);
  raw_data ← lift (default_collate batch_records);
  documents ← lift (getitem raw_data "document");
  batch ← lift (or_raise LibraryError (tokenize tokenizer documents));
  emit (EvGenerate batch_records);;
  summaries ← lift (or_raise LibraryError (generate m batch));
  decoded ← lift (or_raise LibraryError (batch_decode tokenizer summaries));
  for_each (postprocess_data decoded)
    (λ example, write filename (example +:+ newline)).

Definition main (a : args) : M unit :=
  lift (check_args a);;
  '(name, file_model_name) ← lift (resolve_model a);
  emit (EvLoadModel name);;
  m ← lift (or_raise LibraryError (AutoModel_from_pretrained name));
  emit (EvLoadTokenizer name);;
  tokenizer ← lift (or_raise LibraryError (AutoTokenizer_from_pretrained name));
  dataset ← JSONDataset_init (data_path a);
  let dataloader := DataLoader dataset BATCH_SIZE in
  let filename := predictions_filename file_model_name (value (data_path a)) in
  open_write filename;;
  for_each dataloader (step m tokenizer dataset filename).

End Script.

(** ** Vocabulary of the properties *)

Section Vocabulary.
Context `{Library}.

(** The library calls of one iteration, in a row, on the records of a
    batch: collation, the ["document"] entry of the collated batch,
    tokenizer, model and decoder. *)
Definition decode_batch (m : Model) (tokenizer : Tokenizer)
    (batch : list json) : outcome (list string) :=
  match default_collate batch with
  | Raised e => Raised e
  | Returned raw_data =>
      match getitem raw_data "document" with
      | Raised e => Raised e
      | Returned documents =>
          or_raise LibraryError
            (encoded ← tokenize tokenizer documents;
             summaries ← generate m encoded;
             batch_decode tokenizer summaries)
      end
  end.

(** Whether the iteration for a batch gets as far as the call of the model:
    collation, subscript and tokenizer go through. *)
Definition reaches_model (tokenizer : Tokenizer) (batch : list json) : bool :=
  match default_collate batch with
  | Raised _ => false
  | Returned raw_data =>
      match getitem raw_data "document" with
      | Raised _ => false
      | Returned documents => bool_decide (is_Some (tokenize tokenizer documents))
      end
  end.

(** What the loop writes for one decoded summary. *)
Definition output_line (summary : string) : string :=
  postprocess_one summary +:+ newline.

(** The events of an iteration that goes through: the call of the model
    for the batch, then one write to the output file [f] per decoded
    string. *)
Definition batch_events (f : string) (batch : list json)
    (decoded : list string) : list event :=
  EvGenerate batch :: map (λ summary, EvWrite f (output_line summary)) decoded.

(** The writes among some events, in order: each with its path and text. *)
Definition writes (evs : list event) : list (string * string) :=
  omap (λ e, match e with EvWrite p text => Some (p, text) | _ => None end) evs.

(** The text of the ["document"] entry of a record, when the record is an
    object and has the entry and it is a string. *)
Definition document_text (record : json) : option string :=
  match record with
  | JObject items =>
      match list_find (λ kv, kv.1 = "document") items with
      | Some (_, (_, JString text)) => Some text
      | _ => None
      end
  | _ => None
  end.

(** A string without a line feed. *)
Definition single_line (s : string) : Prop := PyStr.contains newline s = false.

(** The texts of a list of writes, one behind the other. *)
Definition written (texts : list string) : string :=
  foldr String.append EmptyString texts.

(** The path an event opens for writing or writes to. *)
Definition written_path (e : event) : option string :=
  match e with
  | EvOpenWrite p | EvWrite p _ => Some p
  | _ => None
  end.

(** The world when the loop over the batches starts: model and tokenizer
    loaded, the dataset read, the output file opened and empty. *)
Definition started (w : world) (name path filename : string) : world :=
  World (<[filename := EmptyString]> (files w))
        (log w ++ [EvLoadModel name; EvLoadTokenizer name;
                   EvOpenRead path; EvOpenWrite filename]).

(** A line of the dataset parses to a record. *)
Definition parses (line : string) (record : json) : Prop :=
  json_loads line = Some record.

End Vocabulary.

(** ** Stand-ins for the libraries *)

Module Stub.

Definition DQ : ascii := "034"%char.

(** The text in front of the first double quote, and what follows it. *)
Fixpoint until_quote (s : string) : option (string * string) :=
  match s with
  | EmptyString => None
  | String c s' =>
      if Ascii.eqb c DQ then Some (EmptyString, s')
      else match until_quote s' with
           | Some (text, rest) => Some (String c text, rest)
           | None => None
           end
  end.

Fixpoint strip_newline (s : string) : string :=
  match s with
  | EmptyString => EmptyString
  | String c s' =>
      if Ascii.eqb c LF && String.eqb s' EmptyString then EmptyString
      else String c (strip_newline s')
  end.

(** The opening of such a line, up to where the text starts. *)
Definition document_open : string :=
  "{" +:+ String DQ "document" +:+ String DQ ": " +:+ String DQ EmptyString.

(** The line of an object whose only entry is the document [text]. *)
Definition document_line (text : string) : string :=
  document_open +:+ text +:+ String DQ "}" +:+ newline.

(** A reader for the two shapes of line the examples use: an object with
    one ["document"] string without escapes, and the empty object. *)
Definition loads (line : string) : option json :=
  let s := strip_newline line in
  if String.eqb s "{}" then Some (JObject [])
  else if String.prefix document_open s
  then match until_quote (PyStr.drop (String.length document_open) s) with
       | Some (text, "}") => Some (JObject [("document", JString text)])
       | _ => None
       end
  else None.

(** The entry [key] of a record that is an object. *)
Definition field (key : string) (record : json) : outcome json :=
  match record with
  | JObject items =>
      match list_find (λ kv, kv.1 = key) items with
      | Some (_, (_, v)) => Returned v
      | None => Raised (KeyError key)
      end
  | _ => Raised TypeError
  end.

(** A collation for records that are objects, in the manner of the
    loader's: every key of the first record is read from every record of the
    batch, which gives one column per key. *)
Definition collate (batch : list json) : outcome (list (string * list json)) :=
  match batch with
  | [] => Returned []
  | JObject items :: _ =>
      comprehension
        (λ key, match comprehension (field key) batch with
                | Returned column => Returned (key, column)
                | Raised e => Raised e
                end)
        items.*1
  | _ :: _ => Raised TypeError
  end.

(** The column [key] of a collated batch, when it is a column of strings. *)
Definition column (raw_data : list (string * list json)) (key : string)
  : outcome (list string) :=
  match list_find (λ kv, kv.1 = key) raw_data with
  | Some (_, (_, values)) =>
      comprehension
        (λ v, match v with JString text => Returned text | _ => Raised LibraryError end)
        values
  | None => Raised (KeyError key)
  end.

(** A library whose model turns each document into [summary document]:
    every name loads, and the tokenizer hands strings through. *)
Definition library (summary : string → string) : Library := {|
  Model := unit;
  Tokenizer := unit;
  Collated := list (string * list json);
  Documents := list string;
  Encoding := list string;
  Generated := list string;
  json_loads := loads;
  AutoModel_from_pretrained := λ _, Some tt;
  AutoTokenizer_from_pretrained := λ _, Some tt;
  default_collate := collate;
  getitem := column;
  tokenize := λ _ documents, Some documents;
  generate := λ _ batch, Some (map summary batch);
  batch_decode := λ _ summaries, Some summaries
|}.

(** A model that marks paragraph breaks the way Pegasus does. *)
Definition pegasus : Library := library (λ d, "About<n>" +:+ d).

(** A model whose summaries have two lines. *)
Definition two_liner : Library := library (λ d, d +:+ newline +:+ "the end").

Definition xsum_path : string := "data/xsum.jsonl".

(** A dataset of two records. *)
Definition two_records : string :=
  document_line "first" +:+ document_line "second".

(** What [two_records] parses to. *)
Definition two_parsed : list json :=
  [JObject [("document", JString "first")];
   JObject [("document", JString "second")]].

Definition world_with (text : string) : world :=
  World {[ xsum_path := text ]} [].

Definition two_record_world : world := world_with two_records.

Definition by_alias (alias : string) : args :=
  Args (Some alias) None (Some xsum_path).

Definition by_identifier : args :=
  Args None (Some "google/pegasus-xsum") (Some xsum_path).

(** An empty dataset, and an output file left from an earlier run. *)
Definition empty_dataset_world : world :=
  World (<["pegasus-xsum.xsum.predictions" := "stale"]> {[ xsum_path := EmptyString ]}) [].

(** [--model ''] next to a [--model_name_or_path]. *)
Definition empty_alias_and_cnn : args :=
  Args (Some EmptyString) (Some "facebook/bart-large-cnn") (Some xsum_path).

Definition empty_alias_and_pegasus : args :=
  Args (Some EmptyString) (Some "google/pegasus-xsum") (Some xsum_path).

End Stub.

(** ** Further vocabulary *)

(** What the loop over the batches may do: call the model for a batch
    and write to the output file [f]. *)
Definition loop_event (f : string) (e : event) : Prop :=
  match e with
  | EvGenerate _ => True
  | EvWrite p _ => p = f
  | _ => False
  end.

(** A call of the model is for a batch of at least one and at most
    [BATCH_SIZE] records. *)
Definition batch_bounded (e : event) : Prop :=
  match e with
  | EvGenerate batch => 0 < length batch ≤ BATCH_SIZE
  | _ => True
  end.

(** A string of dots only. *)
Fixpoint only_dots (s : string) : bool :=
  match s with
  | EmptyString => true
  | String c s' => Ascii.eqb c "." && only_dots s'
  end.

(** ** Further stand-ins *)

Module StubMore.

(** A library whose loaders find no model, and one with a model but no
    tokenizer. *)
Definition no_model : Library := {|
  Model := unit;
  Tokenizer := unit;
  Collated := list (string * list json);
  Documents := list string;
  Encoding := list string;
  Generated := list string;
  json_loads := Stub.loads;
  default_collate := Stub.collate;
  getitem := Stub.column;
  AutoModel_from_pretrained := λ _, None;
  AutoTokenizer_from_pretrained := λ _, Some tt;
  tokenize := λ _ documents, Some documents;
  generate := λ _ batch, Some batch;
  batch_decode := λ _ summaries, Some summaries
|}.

Definition no_tokenizer : Library := {|
  Model := unit;
  Tokenizer := unit;
  Collated := list (string * list json);
  Documents := list string;
  Encoding := list string;
  Generated := list string;
  json_loads := Stub.loads;
  default_collate := Stub.collate;
  getitem := Stub.column;
  AutoModel_from_pretrained := λ _, Some tt;
  AutoTokenizer_from_pretrained := λ _, None;
  tokenize := λ _ documents, Some documents;
  generate := λ _ batch, Some batch;
  batch_decode := λ _ summaries, Some summaries
|}.

(** Eight records with a document. *)
Definition eight_names : list string :=
  ["a"; "b"; "c"; "d"; "e"; "f"; "g"; "h"].

Definition eight_records : string :=
  written (map Stub.document_line eight_names).

(** Nine records, the last one without a document. *)
Definition nine_records : string := eight_records +:+ "{}".

Definition nine_record_world : world := Stub.world_with nine_records.

(** A dataset with a line that is no JSON, and an output file left from
    an earlier run. *)
Definition broken_world : world :=
  World (<["bart-xsum.xsum.predictions" := "stale"]>
           {[ Stub.xsum_path := Stub.document_line "first" +:+ "oops" ]}) [].

(** No dataset at all, and an output file left from an earlier run. *)
Definition stale_world : world :=
  World {[ "bart-xsum.xsum.predictions" := "stale" ]} [].

End StubMore.

(** * Properties *)

(** ** The definitions at work *)

Example postprocess_hello :
  postprocess_data ["Hello<n>world"] = ["Hello world"].
Proof. reflexivity. Qed.

Example basename_ex : PosixPath.basename "data/cnn/test.jsonl" = "test.jsonl".
Proof. reflexivity. Qed.

Example splitext_ex1 : PosixPath.splitext "test.v2.jsonl" = ("test.v2", ".jsonl").
Proof. reflexivity. Qed.

Example splitext_ex2 : PosixPath.splitext "..hidden" = ("..hidden", "").
Proof. reflexivity. Qed.

Example splitext_ex3 : PosixPath.splitext "a.b/c" = ("a.b/c", "").
Proof. reflexivity. Qed.

(** The stand-in collation on records with uneven keys: the key of the
    first record that the second lacks is a [KeyError], although both hold a
    document. *)
Example collate_uneven_keys :
  decode_batch (H:=Stub.pegasus) tt tt
    [JObject [("document", JString "a"); ("id", JNumber "1")];
     JObject [("document", JString "b")]]
  = Raised (KeyError "id").
Proof. reflexivity. Qed.

Example collate_even_keys :
  decode_batch (H:=Stub.pegasus) tt tt
    [JObject [("document", JString "a"); ("id", JNumber "1")];
     JObject [("id", JNumber "2"); ("document", JString "b")]]
  = Returned ["About<n>a"; "About<n>b"].
Proof. reflexivity. Qed.

(** ** Strings *)

Section StringFacts.

Lemma append_cons c s t : String c s +:+ t = String c (s +:+ t).
Proof. reflexivity. Qed.

Lemma append_nil_l s : EmptyString +:+ s = s.
Proof. reflexivity. Qed.

Lemma append_nil_r s : s +:+ EmptyString = s.
Proof. induction s as [|c s IH]; [done|]. by rewrite append_cons, IH. Qed.

Lemma append_assoc s t u : (s +:+ t) +:+ u = s +:+ t +:+ u.
Proof. induction s as [|c s IH]; [done|]. by rewrite !append_cons, IH. Qed.

Lemma prefix_spec old s :
  String.prefix old s = true ↔ ∃ b, s = old +:+ b.
Proof.
  revert s. induction old as [|a old IH]; intros s.
  - destruct s; simpl; split; eauto.
  - destruct s as [|c s]; simpl.
    + split; [done|]. by intros [b ?].
    + destruct (ascii_dec a c) as [->|Hne].
      * rewrite IH. split; intros [b Hb]; exists b.
        -- by rewrite append_cons, Hb.
        -- rewrite append_cons in Hb. by injection Hb.
      * split; [done|]. intros [b Hb]. rewrite append_cons in Hb.
        injection Hb as -> _. done.
Qed.

Lemma prefix_false old s :
  String.prefix old s = false ↔ ¬ ∃ b, s = old +:+ b.
Proof. rewrite <-prefix_spec. by destruct (String.prefix old s). Qed.

Lemma drop_append old b : PyStr.drop (String.length old) (old +:+ b) = b.
Proof. induction old as [|a old IH]; by destruct b. Qed.

Lemma replace_go_skip old new k s :
  PyStr.replace_go old new k s = PyStr.replace_go old new 0 (PyStr.drop k s).
Proof.
  revert k. induction s as [|c s IH]; intros [|k]; try done.
  simpl PyStr.drop. by rewrite <-IH.
Qed.

Lemma occurs_cons old c s : PyStr.occurs old s → PyStr.occurs old (String c s).
Proof. intros (a & b & ->). by exists (String c a), b. Qed.

Lemma occurs_prefix old b : PyStr.occurs old (old +:+ b).
Proof. by exists EmptyString, b. Qed.

Lemma occurs_inv old c s :
  PyStr.occurs old (String c s) →
  String.prefix old (String c s) = true ∨ PyStr.occurs old s.
Proof.
  intros ([|c' a] & b & Heq).
  - left. apply prefix_spec. by exists b.
  - right. rewrite append_cons in Heq. injection Heq as _ ->. by exists a, b.
Qed.

Lemma contains_nil old :
  PyStr.contains old EmptyString = String.prefix old EmptyString.
Proof. simpl. apply orb_false_r. Qed.

Lemma contains_cons old c s :
  PyStr.contains old (String c s)
  = String.prefix old (String c s) || PyStr.contains old s.
Proof. reflexivity. Qed.

Lemma contains_occurs old s : PyStr.contains old s = true ↔ PyStr.occurs old s.
Proof.
  induction s as [|c s IH].
  - rewrite contains_nil, prefix_spec. split.
    + intros [b ->]. apply occurs_prefix.
    + intros ([|??] & b & Heq); [by exists b|done].
  - rewrite contains_cons, orb_true_iff, IH. split.
    + intros [[b ->]%prefix_spec | ?]; [apply occurs_prefix | by apply occurs_cons].
    + apply occurs_inv.
Qed.

Lemma contains_free old s : PyStr.contains old s = false ↔ ¬ PyStr.occurs old s.
Proof. rewrite <-contains_occurs. by destruct (PyStr.contains old s). Qed.

End StringFacts.

(** ** The scan of [replace] *)

Section ReplaceFacts.

Lemma replace_go_match a o new b :
  PyStr.replace_go (String a o) new 0 (String a o +:+ b)
  = new +:+ PyStr.replace_go (String a o) new 0 b.
Proof.
  assert (String.prefix (String a o) (String a o +:+ b) = true) as Hp
    by (apply prefix_spec; eauto).
  rewrite append_cons in Hp |- *.
  cbn [PyStr.replace_go]. rewrite Hp.
  f_equal. rewrite replace_go_skip. f_equal.
  cbn [String.length]. rewrite Nat.sub_1_r. cbn [Nat.pred].
  apply drop_append.
Qed.

Lemma replace_go_copy old new c s :
  String.prefix old (String c s) = false →
  PyStr.replace_go old new 0 (String c s)
  = String c (PyStr.replace_go old new 0 s).
Proof. intros Hp. cbn [PyStr.replace_go]. by rewrite Hp. Qed.

Lemma replace_char c d s :
  PyStr.replace (String c EmptyString) (String d EmptyString) s
  = PyStr.translate c d s.
Proof.
  unfold PyStr.replace. induction s as [|x s IH]; [done|].
  cbn [PyStr.replace_go PyStr.translate String.prefix].
  destruct (ascii_dec c x) as [->|Hne].
  - rewrite Ascii.eqb_refl.
    replace (String.prefix EmptyString s) with true by by destruct s.
    cbn [String.length Nat.sub]. by rewrite IH.
  - rewrite IH. by destruct (Ascii.eqb_spec x c) as [->|_].
Qed.

End ReplaceFacts.

Section PostprocessFacts.

Lemma postprocess_one_unfold x :
  postprocess_one x = PyStr.replace_go marker " " 0 x.
Proof. reflexivity. Qed.

Lemma postprocess_one_nil : postprocess_one EmptyString = EmptyString.
Proof. reflexivity. Qed.

Lemma postprocess_one_marker b :
  postprocess_one (marker +:+ b) = " " +:+ postprocess_one b.
Proof. rewrite !postprocess_one_unfold. apply replace_go_match. Qed.

Lemma postprocess_one_copy c s :
  String.prefix marker (String c s) = false →
  postprocess_one (String c s) = String c (postprocess_one s).
Proof. rewrite !postprocess_one_unfold. apply replace_go_copy. Qed.

(** Induction along the scan: a string is empty, or starts with the
    marker, or starts with a character that does not open a marker. *)
Lemma scan_ind (P : string → Prop) :
  P EmptyString →
  (∀ b, P b → P (marker +:+ b)) →
  (∀ c s, String.prefix marker (String c s) = false → P s → P (String c s)) →
  ∀ s, P s.
Proof.
  intros Hnil Hmark Hcopy s.
  remember (String.length s) as n eqn:Hn. revert s Hn.
  induction n as [n IH] using lt_wf_ind. intros s ->.
  destruct s as [|c s]; [done|].
  destruct (String.prefix marker (String c s)) eqn:Hp.
  - apply prefix_spec in Hp as [b Hb]. rewrite Hb. apply Hmark.
    eapply IH; [|done]. rewrite Hb. unfold marker.
    rewrite !append_cons, append_nil_l. cbn [String.length]. lia.
  - apply Hcopy; [done|]. eapply IH; [|done]. cbn [String.length]. lia.
Qed.

End PostprocessFacts.

(** ** The post-processor, one string *)

Section MarkerFacts.

Lemma marker_app b :
  marker +:+ b = String "<" (String "n" (String ">" b)).
Proof. reflexivity. Qed.

Lemma marker_free_tail c s : marker_free (String c s) → marker_free s.
Proof. intros Hf Ho. apply Hf. by apply occurs_cons. Qed.

Lemma marker_free_head c s :
  marker_free (String c s) → String.prefix marker (String c s) = false.
Proof.
  intros Hf. apply prefix_false. intros [b Hb]. apply Hf.
  rewrite Hb. apply occurs_prefix.
Qed.

(** The marker does not overlap itself, nor a space: a marker that starts
    inside a marker-free [p] cannot run into what follows [p]. *)
Lemma marker_no_straddle c q sep rest :
  sep = marker ∨ sep = " " →
  marker_free (String c q) →
  String.prefix marker (String c (q +:+ sep +:+ rest)) = false.
Proof.
  intros Hsep Hf. apply prefix_false. intros [b Hb].
  rewrite marker_app in Hb. injection Hb as -> Hb.
  destruct q as [|x [|y q]].
  - rewrite append_nil_l in Hb. destruct Hsep as [-> | ->]; discriminate Hb.
  - rewrite append_cons, append_nil_l in Hb. injection Hb as -> Hb.
    destruct Hsep as [-> | ->]; discriminate Hb.
  - rewrite !append_cons in Hb. injection Hb as -> -> _.
    apply Hf. exists EmptyString, q. reflexivity.
Qed.

Lemma postprocess_one_piece p rest :
  marker_free p →
  postprocess_one (p +:+ marker +:+ rest) = p +:+ " " +:+ postprocess_one rest.
Proof.
  induction p as [|c q IH]; intros Hf.
  - rewrite !append_nil_l. apply postprocess_one_marker.
  - rewrite !append_cons, postprocess_one_copy.
    + f_equal. apply IH. by eapply marker_free_tail.
    + apply marker_no_straddle; auto.
Qed.

Lemma postprocess_one_free p : marker_free p → postprocess_one p = p.
Proof.
  induction p as [|c q IH]; intros Hf; [done|].
  rewrite postprocess_one_copy by by apply marker_free_head.
  f_equal. apply IH. by eapply marker_free_tail.
Qed.

Lemma concat_cons sep p q qs :
  String.concat sep (p :: q :: qs) = p +:+ sep +:+ String.concat sep (q :: qs).
Proof. reflexivity. Qed.

Lemma postprocess_one_join pieces :
  Forall marker_free pieces →
  postprocess_one (String.concat marker pieces) = String.concat " " pieces.
Proof.
  induction 1 as [|p [|q qs] Hp _ IH]; [done| |].
  - by apply postprocess_one_free.
  - rewrite !concat_cons, postprocess_one_piece by done. by rewrite IH.
Qed.

(** Every string splits at its markers. *)
Lemma marker_split s :
  ∃ pieces,
    pieces ≠ [] ∧ Forall marker_free pieces ∧ s = String.concat marker pieces.
Proof.
  induction s as [|b (pieces & Hne & Hf & ->)|c s Hp (pieces & Hne & Hf & ->)]
    using scan_ind.
  - exists [EmptyString]. split_and!; [done| |done].
    constructor; [|done]. intros ([|??] & ? & ?); done.
  - exists (EmptyString :: pieces). split_and!; [done| |].
    + constructor; [|done]. intros ([|??] & ? & ?); done.
    + destruct pieces; done.
  - destruct pieces as [|p ps]; [done|]. inversion_clear Hf as [|?? Hfp Hfps].
    exists (String c p :: ps). split_and!; [done| |].
    + constructor; [|done]. intros Ho.
      apply occurs_inv in Ho as [Ho|Ho]; [|done].
      apply prefix_spec in Ho as [b Hb].
      apply prefix_false in Hp. apply Hp.
      destruct ps as [|q qs].
      * exists b. simpl. done.
      * exists (b +:+ marker +:+ String.concat marker (q :: qs)).
        rewrite concat_cons, <-append_cons, Hb. by rewrite append_assoc.
    + destruct ps; done.
Qed.

Lemma join_space_free pieces :
  Forall marker_free pieces → marker_free (String.concat " " pieces).
Proof.
  induction 1 as [|p [|q qs] Hp _ IH]; [intros ([|??] & ? & ?); done|done|].
  rewrite concat_cons. revert IH. generalize (String.concat " " (q :: qs)).
  intros rest Hrest. induction p as [|c p IHp].
  - rewrite append_nil_l. intros Ho. apply occurs_inv in Ho as [Ho|Ho]; done.
  - rewrite append_cons. intros Ho. apply occurs_inv in Ho as [Ho|Ho].
    + by rewrite (marker_no_straddle c p " " rest) in Ho by auto.
    + revert Ho. apply IHp. by eapply marker_free_tail.
Qed.

Lemma postprocess_one_marker_free s : marker_free (postprocess_one s).
Proof.
  destruct (marker_split s) as (pieces & _ & Hf & ->).
  rewrite postprocess_one_join by done. by apply join_space_free.
Qed.

End MarkerFacts.

(** ** Batching *)

Section BatchFacts.
Context {A : Type}.
Implicit Types (batch sampler : list A) (batch_size : nat).

Lemma batch_go_concat batch_size batch sampler :
  concat (batch_go batch_size batch sampler) = batch ++ sampler.
Proof.
  revert batch. induction sampler as [|idx rest IH]; intros batch; simpl.
  - case_bool_decide; simpl.
    + by rewrite !app_nil_r.
    + destruct batch; simpl in *; [done|lia].
  - case_bool_decide; simpl; rewrite IH; by rewrite <-?app_assoc.
Qed.

(** A batch is a window of the sequence: batch [i] is the [batch_size]
    elements from position [i * batch_size] on, as far as there are any. *)
Lemma batch_go_lookup batch_size batch sampler i :
  length batch < batch_size →
  batch_go batch_size batch sampler !! i
  = if bool_decide (i * batch_size < length batch + length sampler)
    then Some (take batch_size (drop (i * batch_size) (batch ++ sampler)))
    else None.
Proof.
  revert batch i. induction sampler as [|idx rest IH]; intros batch i Hlt; simpl.
  - rewrite app_nil_r. case_bool_decide as Hb; destruct i as [|i]; simpl.
    + rewrite bool_decide_true by lia. rewrite drop_0. by rewrite take_ge by lia.
    + rewrite bool_decide_false by nia. done.
    + rewrite bool_decide_false by lia. done.
    + rewrite bool_decide_false by nia. done.
  - case_bool_decide as Hfull; rewrite length_app in Hfull; simpl in Hfull.
    + destruct i as [|i]; simpl.
      * rewrite bool_decide_true by lia. f_equal. rewrite drop_0.
        rewrite (cons_middle idx batch rest), app_assoc.
        rewrite take_app_length'; [done|]. by rewrite length_app.
      * rewrite IH by (simpl; lia). simpl.
        replace (batch ++ idx :: rest) with ((batch ++ [idx]) ++ rest)
          by by rewrite <-app_assoc.
        replace (batch_size + i * batch_size)
          with (length (batch ++ [idx]) + i * batch_size)
          by (rewrite length_app; simpl; lia).
        rewrite <-drop_drop, drop_app_length, length_app. simpl.
        repeat case_bool_decide; done || lia.
    + rewrite IH by (rewrite length_app; simpl; lia).
      rewrite length_app. simpl. rewrite <-app_assoc. simpl.
      repeat case_bool_decide; done || lia.
Qed.

Lemma BatchSampler_lookup batch_size sampler i :
  0 < batch_size →
  BatchSampler batch_size sampler !! i
  = if bool_decide (i * batch_size < length sampler)
    then Some (take batch_size (drop (i * batch_size) sampler))
    else None.
Proof. intros. unfold BatchSampler. by rewrite batch_go_lookup. Qed.

Lemma BatchSampler_length batch_size sampler :
  0 < batch_size →
  length (BatchSampler batch_size sampler)
  = (length sampler + batch_size - 1) / batch_size.
Proof.
  intros HB.
  set (L := length (BatchSampler batch_size sampler)).
  set (N := length sampler).
  assert (∀ i, i < L ↔ i * batch_size < N) as Hiff.
  { intros i. unfold L. rewrite <-lookup_lt_is_Some, BatchSampler_lookup by done.
    case_bool_decide; (split; [|done]); [done|by intros [??]]. }
  destruct L as [|L'] eqn:HL.
  - assert (N = 0) as -> by (destruct (Hiff 0); lia).
    symmetry. apply Nat.div_small. lia.
  - assert (L' * batch_size < N) by (apply Hiff; lia).
    assert (¬ S L' * batch_size < N) by (rewrite <-Hiff; lia).
    apply (Nat.div_unique _ _ _ (N + batch_size - 1 - S L' * batch_size)); nia.
Qed.

End BatchFacts.

(** C2. For a batch size [B >= 1] and a record sequence of length [N], the
    batching step gives [ceil(N/B)] batches in the original order: batch [i]
    is the window of [B] records from position [i * B], every batch but the
    last has exactly [B] records, the last has [N mod B] of them when that is
    not zero (and [B] otherwise), and the batches concatenated in order are
    the original sequence. *)
Theorem BatchSampler_partition {A : Type} (B : nat) (records : list A) :
  1 ≤ B →
  let N := length records in
  let batches := BatchSampler B records in
  length batches = (N + B - 1) / B
  ∧ concat batches = records
  ∧ ∀ i batch, batches !! i = Some batch →
      batch = take B (drop (i * B) records)
      ∧ (S i < length batches → length batch = B)
      ∧ (S i = length batches →
         length batch = if bool_decide (N mod B = 0) then B else N mod B).
Proof.
  intros HB N batches. split_and!.
  - by apply BatchSampler_length.
  - apply (batch_go_concat B [] records).
  - intros i batch Hi.
    assert (∀ j, j < length batches ↔ j * B < N) as Hiff.
    { intros j. unfold batches.
      rewrite <-lookup_lt_is_Some, BatchSampler_lookup by done.
      case_bool_decide; (split; [|done]); [done|by intros [??]]. }
    assert (i * B < N) as HiN by (apply Hiff; by eapply lookup_lt_Some).
    unfold batches in Hi. rewrite BatchSampler_lookup in Hi by done.
    rewrite bool_decide_true in Hi by done. injection Hi as <-.
    split_and!; [done| |].
    + intros Hlt%Hiff. rewrite length_take, length_drop. fold N. lia.
    + intros Hlast.
      assert (¬ S i * B < N) as Hge by (rewrite <-Hiff; lia).
      rewrite length_take, length_drop. fold N.
      pose proof (Nat.div_mod_eq N B) as Hdm.
      pose proof (Nat.mod_upper_bound N B ltac:(lia)) as Hmod.
      case_bool_decide as Hz.
      * assert (N `div` B = S i) by nia. nia.
      * assert (N `div` B = i) by nia. nia.
Qed.

(** C2 at batch size 3 and seven records. *)
Lemma BatchSampler_partition_witness :
  1 ≤ 3
  ∧ length (BatchSampler 3 [10; 11; 12; 13; 14; 15; 16]) = 3
  ∧ BatchSampler 3 [10; 11; 12; 13; 14; 15; 16] !! 2 = Some [16].
Proof.
  pose proof (BatchSampler_partition 3 [10; 11; 12; 13; 14; 15; 16]) as Hp.
  split; [lia|]. destruct (Hp ltac:(lia)) as (Hlen & _ & _).
  split; [exact Hlen | reflexivity].
Defined.

(** ** The post-processor, claims *)

(** C3. The post-processor returns as many strings as it is given, and
    for every decoded string of the list, at its place: the string splits at
    its occurrences of ['<n>'] into pieces that hold no ['<n>'], and however
    it is so split, the result is the same pieces joined by one space each,
    so every marker becomes a single space and nothing else changes. In
    particular ["Hello<n>world"] becomes ["Hello world"]. The post-processor
    is a function of the decoded strings alone and touches nothing else. *)
Theorem postprocess_data_replaces_markers (decoded : list string) :
  length (postprocess_data decoded) = length decoded
  ∧ (∀ i x,
       decoded !! i = Some x →
       (∃ pieces, Forall marker_free pieces ∧ x = String.concat marker pieces)
       ∧ ∀ pieces,
           Forall marker_free pieces → x = String.concat marker pieces →
           postprocess_data decoded !! i = Some (String.concat " " pieces))
  ∧ postprocess_data ["Hello<n>world"] = ["Hello world"].
Proof.
  split_and!.
  - apply length_map.
  - intros i x Hi. split.
    + destruct (marker_split x) as (pieces & _ & Hf & Hx). eauto.
    + intros pieces Hf ->. unfold postprocess_data.
      rewrite (list_lookup_fmap postprocess_one), Hi. simpl. f_equal.
      by apply postprocess_one_join.
  - reflexivity.
Qed.

(** C3 on the third of three strings, one with two markers. *)
Lemma postprocess_data_replaces_markers_witness :
  postprocess_data ["x"; "<n>"; "a<n>b<<n>n>"] !! 2 = Some "a b< n>".
Proof.
  destruct (postprocess_data_replaces_markers ["x"; "<n>"; "a<n>b<<n>n>"])
    as (_ & Hall & _).
  destruct (Hall 2 "a<n>b<<n>n>" eq_refl) as [_ Hsplit].
  apply (Hsplit ["a"; "b<"; "n>"]); [|reflexivity].
  repeat constructor; apply contains_free; reflexivity.
Defined.

(** C4. Post-processing is idempotent: on every list of strings, whatever
    markers they hold, the second application changes nothing. *)
Theorem postprocess_data_idempotent (decoded : list string) :
  postprocess_data (postprocess_data decoded) = postprocess_data decoded.
Proof.
  unfold postprocess_data. rewrite map_map. apply map_ext. intros x.
  apply postprocess_one_free, postprocess_one_marker_free.
Qed.

(** C9. The post-processor works element by element: the result has the
    length of the input, element [i] of the result is the replacement
    applied to element [i] of the input and so is the same for two inputs
    that agree at [i], and a string without ['<n>'] is returned as it is. *)
Theorem postprocess_data_elementwise (decoded : list string) :
  length (postprocess_data decoded) = length decoded
  ∧ (∀ i, postprocess_data decoded !! i = postprocess_one <$> decoded !! i)
  ∧ (∀ decoded' i,
       decoded !! i = decoded' !! i →
       postprocess_data decoded !! i = postprocess_data decoded' !! i)
  ∧ (∀ i x,
       decoded !! i = Some x → marker_free x →
       postprocess_data decoded !! i = Some x).
Proof.
  unfold postprocess_data. split_and!.
  - apply length_map.
  - intros i. apply list_lookup_fmap.
  - intros decoded' i Heq. by rewrite !(list_lookup_fmap postprocess_one), Heq.
  - intros i x Hi Hf.
    by rewrite (list_lookup_fmap postprocess_one), Hi; simpl;
      rewrite postprocess_one_free.
Qed.

(** C9 on a list whose second string holds no marker. *)
Lemma postprocess_data_elementwise_witness :
  postprocess_data ["x<n>y"; "<n >"] !! 1 = Some "<n >".
Proof.
  destruct (postprocess_data_elementwise ["x<n>y"; "<n >"]) as (_ & _ & _ & Hid).
  apply Hid; [reflexivity|]. apply contains_free; reflexivity.
Defined.

(** ** Lines of a text *)

Section LineFacts.

Lemma single_line_nil : single_line EmptyString.
Proof. reflexivity. Qed.

Lemma single_line_cons c s :
  single_line (String c s) ↔ c ≠ LF ∧ single_line s.
Proof.
  unfold single_line. rewrite contains_cons, orb_false_iff.
  unfold newline. cbn [String.prefix].
  destruct (ascii_dec LF c) as [<-|Hne].
  - destruct s; split; intros [??]; done.
  - split; intros [??]; split; congruence.
Qed.

Lemma lines_cons_LF text : lines (String LF text) = newline :: lines text.
Proof. reflexivity. Qed.

Lemma lines_cons_other c text :
  c ≠ LF →
  lines (String c text)
  = match lines text with
    | [] => [String c EmptyString]
    | l :: ls => String c l :: ls
    end.
Proof.
  intros Hc. cbn [lines].
  destruct (Ascii.eqb_spec c LF) as [->|_]; done.
Qed.

(** A text that starts with a single line and its line feed has that as
    its first line. *)
Lemma lines_line p rest :
  single_line p → lines (p +:+ newline +:+ rest) = (p +:+ newline) :: lines rest.
Proof.
  induction p as [|c p IH]; intros Hp.
  - apply lines_cons_LF.
  - apply single_line_cons in Hp as [Hc Hp].
    rewrite !append_cons, lines_cons_other, IH by done. done.
Qed.

Lemma lines_written ps :
  Forall single_line ps →
  lines (written (map (λ p, p +:+ newline) ps)) = map (λ p, p +:+ newline) ps.
Proof.
  induction 1 as [|p ps Hp _ IH]; [done|].
  cbn [map written foldr]. rewrite append_assoc, lines_line by done.
  f_equal. apply IH.
Qed.

Lemma written_app texts texts' :
  written (texts ++ texts') = written texts +:+ written texts'.
Proof.
  induction texts as [|t texts IH]; [done|].
  cbn [app written foldr]. fold (written (texts ++ texts')).
  by rewrite IH, append_assoc.
Qed.

Lemma lines_empty text : lines text = [] ↔ text = EmptyString.
Proof.
  split; [|by intros ->].
  destruct text as [|c text]; [done|]. cbn [lines].
  destruct (Ascii.eqb c LF); [done|]. by destruct (lines text).
Qed.

(** The replacement neither removes nor brings in a line feed. *)
Lemma postprocess_one_single_line s :
  single_line s → single_line (postprocess_one s).
Proof.
  induction s as [|b IH|c s Hp IH] using scan_ind; [done| |].
  - rewrite postprocess_one_marker, marker_app, !single_line_cons.
    intros (_ & _ & _ & Hb). rewrite append_cons, append_nil_l.
    apply single_line_cons. split; [done|auto].
  - rewrite postprocess_one_copy by done. rewrite !single_line_cons.
    intros [??]; auto.
Qed.

End LineFacts.

(** ** Running the script *)

Section RunFacts.
Context `{Library}.

Lemma bind_Returned {A B : Type} (m : M A) (k : A → M B) w a w' :
  m w = (Returned a, w') → (m ≫= k) w = k a w'.
Proof. unfold mbind, M_bind. by intros ->. Qed.

Lemma bind_Raised {A B : Type} (m : M A) (k : A → M B) w e w' :
  m w = (Raised e, w') → (m ≫= k) w = (Raised e, w').
Proof. unfold mbind, M_bind. by intros ->. Qed.

Lemma bind_lift_Returned {A B : Type} (o : outcome A) (k : A → M B) w a :
  o = Returned a → (lift o ≫= k) w = k a w.
Proof. by intros ->. Qed.

Lemma bind_lift_Raised {A B : Type} (o : outcome A) (k : A → M B) w e :
  o = Raised e → (lift o ≫= k) w = (Raised e, w).
Proof. by intros ->. Qed.

Lemma bind_emit {B : Type} (ev : event) (k : unit → M B) w :
  (emit ev ≫= k) w = k tt (World (files w) (log w ++ [ev])).
Proof. reflexivity. Qed.

Lemma world_eta w : World (files w) (log w) = w.
Proof. by destruct w. Qed.

Lemma alter_present (g : string → string) f (fs : gmap string string) cur :
  fs !! f = Some cur → alter g f fs = <[f := g cur]> fs.
Proof.
  intros Hf. apply map_eq. intros i. destruct (decide (f = i)) as [<-|Hne].
  - by rewrite lookup_alter_eq, lookup_insert_eq, Hf.
  - by rewrite lookup_alter_ne, lookup_insert_ne.
Qed.

(** *** Writing *)

Lemma write_run f text w cur :
  files w !! f = Some cur →
  write f text w
  = (Returned tt, World (<[f := cur +:+ text]> (files w)) (log w ++ [EvWrite f text])).
Proof.
  intros Hf. unfold write. rewrite bind_emit. unfold update_files. simpl.
  by rewrite (alter_present _ _ _ cur).
Qed.

Lemma for_each_write f examples w cur :
  files w !! f = Some cur →
  for_each examples (λ example, write f (example +:+ newline)) w
  = (Returned tt,
     World (<[f := cur +:+ written (map (λ ex, ex +:+ newline) examples)]> (files w))
           (log w ++ map (λ ex, EvWrite f (ex +:+ newline)) examples)).
Proof.
  revert w cur. induction examples as [|ex examples IH]; intros w cur Hf.
  - simpl. rewrite append_nil_r, app_nil_r, insert_id by done.
    by rewrite world_eta.
  - cbn [for_each].
    erewrite bind_Returned by by apply write_run.
    erewrite IH by (simpl; apply lookup_insert_eq).
    simpl. rewrite insert_insert_eq, append_assoc, <-app_assoc. done.
Qed.

(** *** Comprehensions *)

Lemma comprehension_Forall2 {A B : Type} (f : A → outcome B) l ys :
  comprehension f l = Returned ys ↔ Forall2 (λ x y, f x = Returned y) l ys.
Proof.
  revert ys. induction l as [|x l IH]; intros ys; simpl.
  - split; [intros [= <-]; constructor | by inversion 1].
  - split.
    + destruct (f x) as [y|] eqn:Hy; [|done].
      destruct (comprehension f l) as [ys'|] eqn:Hys; [|done].
      intros [= <-]. constructor; [done|]. by apply IH.
    + inversion 1 as [|?? y ys' Hy Hys]; subst. rewrite Hy.
      apply IH in Hys. by rewrite Hys.
Qed.

Lemma comprehension_first_failure {A B : Type} (f : A → outcome B) l e :
  comprehension f l = Raised e →
  ∃ before x after,
    l = before ++ x :: after
    ∧ Forall (λ x', ∃ y, f x' = Returned y) before
    ∧ f x = Raised e.
Proof.
  induction l as [|x l IH]; simpl; [done|].
  destruct (f x) as [y|e'] eqn:Hx.
  - destruct (comprehension f l) as [ys|e'] eqn:Hl; [done|].
    intros [= ->]. destruct (IH eq_refl) as (before & x' & after & -> & Hb & Hx').
    exists (x :: before), x', after. split_and!; [done| |done].
    constructor; eauto.
  - intros [= ->]. exists [], x, l. split_and!; [done|constructor|done].
Qed.

Lemma comprehension_length {A B : Type} (f : A → outcome B) l ys :
  comprehension f l = Returned ys → length ys = length l.
Proof. intros Hc%comprehension_Forall2. symmetry. by eapply Forall2_length. Qed.

Lemma comprehension_all {A B : Type} (f : A → outcome B) l :
  Forall (λ x, ∃ y, f x = Returned y) l → ∃ ys, comprehension f l = Returned ys.
Proof.
  induction 1 as [|x l [y Hy] _ [ys Hys]]; [by exists []|].
  exists (y :: ys). simpl. by rewrite Hy, Hys.
Qed.

(** *** Fetching the batches *)

Lemma batch_go_fmap {A B : Type} (f : A → B) batch_size (batch sampler : list A) :
  batch_go batch_size (f <$> batch) (f <$> sampler)
  = (λ b : list A, f <$> b) <$> batch_go batch_size batch sampler.
Proof.
  revert batch. induction sampler as [|idx rest IH]; intros batch; simpl.
  - rewrite length_fmap. by case_bool_decide.
  - rewrite !length_app, !length_fmap. simpl.
    case_bool_decide; simpl.
    + rewrite fmap_app. simpl. f_equal. apply (IH []).
    + rewrite <-IH, fmap_app. done.
Qed.

Lemma fmap_eq_Forall2 {A B C : Type} (f : A → C) (g : B → C)
    (xs : list A) (ys : list B) :
  f <$> xs = g <$> ys → Forall2 (λ x y, f x = g y) xs ys.
Proof.
  revert ys. induction xs as [|x xs IH]; intros [|y ys]; simpl; try done.
  intros [= Hxy Hrest]. constructor; auto.
Qed.

Lemma fetch_lookups (data : list json) (indices : list nat) records :
  (data !!.) <$> indices = Some <$> records → fetch data indices = Returned records.
Proof.
  intros Heq. apply comprehension_Forall2.
  apply fmap_eq_Forall2 in Heq.
  eapply Forall2_impl; [exact Heq|].
  intros idx r Hr. unfold JSONDataset_getitem. simpl in Hr. by rewrite Hr.
Qed.

Lemma lookup_all (data : list json) :
  (data !!.) <$> seq 0 (length data) = Some <$> data.
Proof.
  apply list_eq. intros i. rewrite !list_lookup_fmap.
  destruct (decide (i < length data)) as [Hlt|Hge].
  - rewrite lookup_seq_lt by done. simpl.
    destruct (lookup_lt_is_Some_2 data i Hlt) as [r Hr]. by rewrite Hr.
  - rewrite lookup_seq_ge by lia. by rewrite lookup_ge_None_2 by lia.
Qed.

(** The loader hands out the batches of the records themselves. *)
Lemma fetch_batches data batch_size :
  Forall2 (λ indices records, fetch data indices = Returned records)
    (DataLoader data batch_size) (BatchSampler batch_size data).
Proof.
  assert ((λ b : list nat, (data !!.) <$> b) <$> DataLoader data batch_size
          = (λ b : list json, Some <$> b) <$> BatchSampler batch_size data) as Heq.
  { unfold DataLoader, BatchSampler, JSONDataset_len.
    rewrite <-(batch_go_fmap _ _ []), <-(batch_go_fmap _ _ []). simpl.
    by rewrite lookup_all. }
  apply fmap_eq_Forall2 in Heq.
  eapply Forall2_impl; [exact Heq|]. intros ??; apply fetch_lookups.
Qed.

(** *** One iteration and the loop *)

Lemma decode_batch_Returned m tokenizer batch decoded :
  decode_batch m tokenizer batch = Returned decoded ↔
  ∃ raw_data documents encoded summaries,
    default_collate batch = Returned raw_data
    ∧ getitem raw_data "document" = Returned documents
    ∧ tokenize tokenizer documents = Some encoded
    ∧ generate m encoded = Some summaries
    ∧ batch_decode tokenizer summaries = Some decoded.
Proof.
  unfold decode_batch. split.
  - destruct (default_collate batch) as [raw_data|] eqn:Hc; [|done].
    destruct (getitem raw_data "document") as [documents|] eqn:Hi; [|done].
    destruct (tokenize tokenizer documents) as [encoded|] eqn:Ht; [|done]. simpl.
    destruct (generate m encoded) as [summaries|] eqn:Hg; [|done]. simpl.
    destruct (batch_decode tokenizer summaries) as [decoded'|] eqn:Hd; [|done].
    intros [= <-]. exists raw_data, documents, encoded, summaries.
    by split_and!.
  - intros (raw_data & documents & encoded & summaries
            & -> & -> & -> & Hg & Hd).
    simpl. rewrite Hg. simpl. by rewrite Hd.
Qed.

(** An iteration that goes through: one write per decoded string. *)
Lemma step_ok m tokenizer data f indices w cur batch decoded :
  fetch data indices = Returned batch →
  decode_batch m tokenizer batch = Returned decoded →
  files w !! f = Some cur →
  step m tokenizer data f indices w
  = (Returned tt,
     World (<[f := cur +:+ written (map output_line decoded)]> (files w))
           (log w ++ batch_events f batch decoded)).
Proof.
  intros Hfetch (raw_data & documents & encoded & summaries
                 & Hc & Hg & Ht & Hm & Hd)%decode_batch_Returned Hf.
  unfold step.
  rewrite (bind_lift_Returned _ _ _ batch) by done.
  rewrite (bind_lift_Returned _ _ _ raw_data) by done.
  rewrite (bind_lift_Returned _ _ _ documents) by done.
  rewrite (bind_lift_Returned _ _ _ encoded) by by rewrite Ht.
  rewrite bind_emit.
  rewrite (bind_lift_Returned _ _ _ summaries) by by rewrite Hm.
  rewrite (bind_lift_Returned _ _ _ decoded) by by rewrite Hd.
  rewrite (for_each_write _ _ _ cur) by done. simpl.
  unfold postprocess_data, batch_events. rewrite !map_map, <-app_assoc. done.
Qed.

(** An iteration in which a library call fails: nothing is written, and
    the model has been called only if the failure is the model's or the
    decoder's. *)
Lemma step_raises m tokenizer data f indices w batch e :
  fetch data indices = Returned batch →
  decode_batch m tokenizer batch = Raised e →
  step m tokenizer data f indices w
  = (Raised e,
     World (files w)
           (log w ++ if reaches_model tokenizer batch then [EvGenerate batch] else [])).
Proof.
  intros Hfetch Hdec. unfold step, decode_batch, reaches_model in *.
  rewrite (bind_lift_Returned _ _ _ batch) by done.
  destruct (default_collate batch) as [raw_data|e'] eqn:Hc; cycle 1.
  { injection Hdec as ->. rewrite (bind_lift_Raised _ _ _ e) by done.
    by rewrite app_nil_r, world_eta. }
  rewrite (bind_lift_Returned _ _ _ raw_data) by done.
  destruct (getitem raw_data "document") as [documents|e'] eqn:Hg; cycle 1.
  { injection Hdec as ->. rewrite (bind_lift_Raised _ _ _ e) by done.
    by rewrite app_nil_r, world_eta. }
  rewrite (bind_lift_Returned _ _ _ documents) by done.
  destruct (tokenize tokenizer documents) as [encoded|] eqn:Ht; cycle 1.
  { injection Hdec as <-. rewrite (bind_lift_Raised _ _ _ LibraryError) by done.
    rewrite bool_decide_false by by intros [??].
    by rewrite app_nil_r, world_eta. }
  rewrite (bind_lift_Returned _ _ _ encoded) by done. rewrite bind_emit.
  rewrite bool_decide_true by by eexists. simpl in Hdec.
  destruct (generate m encoded) as [summaries|] eqn:Hm; cycle 1.
  { injection Hdec as <-. by rewrite (bind_lift_Raised _ _ _ LibraryError). }
  rewrite (bind_lift_Returned _ _ _ summaries) by done. simpl in Hdec.
  destruct (batch_decode tokenizer summaries) as [decoded|] eqn:Hd; [done|].
  injection Hdec as <-. by rewrite (bind_lift_Raised _ _ _ LibraryError).
Qed.

(** Whatever happens in an iteration, its events are calls of the model
    and writes to the output file, and the output file is appended to. *)
Lemma step_events m tokenizer data f indices w cur :
  files w !! f = Some cur →
  ∃ o out evs,
    step m tokenizer data f indices w
    = (o, World (<[f := cur +:+ out]> (files w)) (log w ++ evs))
    ∧ Forall (loop_event f) evs.
Proof.
  intros Hf.
  assert (∀ evs, World (files w) (log w ++ evs)
                 = World (<[f := cur +:+ EmptyString]> (files w)) (log w ++ evs))
    as Hsame by (intros; by rewrite append_nil_r, insert_id).
  destruct (fetch data indices) as [batch|e] eqn:Hfetch; cycle 1.
  { exists (Raised e), EmptyString, []. split; [|constructor].
    unfold step. rewrite (bind_lift_Raised _ _ _ e) by done.
    by rewrite <-Hsame, app_nil_r, world_eta. }
  destruct (decode_batch m tokenizer batch) as [decoded|e] eqn:Hdec.
  - eexists _, _, _. split; [by apply step_ok|].
    constructor; [done|]. apply Forall_map, Forall_true. by intros ?.
  - eexists (Raised e), EmptyString, _. rewrite <-Hsame.
    split; [by apply step_raises|].
    destruct (reaches_model tokenizer batch); by repeat constructor.
Qed.

Lemma loop_events m tokenizer data f batches w cur :
  files w !! f = Some cur →
  ∃ o out evs,
    for_each batches (step m tokenizer data f) w
    = (o, World (<[f := cur +:+ out]> (files w)) (log w ++ evs))
    ∧ Forall (loop_event f) evs.
Proof.
  revert w cur. induction batches as [|indices batches IH]; intros w cur Hf.
  - exists (Returned tt), EmptyString, []. split; [|constructor]. simpl.
    by rewrite append_nil_r, insert_id, app_nil_r, world_eta.
  - destruct (step_events m tokenizer data f indices w cur Hf)
      as (o & out & evs & Hstep & Hevs).
    cbn [for_each]. destruct o as [[]|e].
    + erewrite bind_Returned by done.
      edestruct (IH (World (<[f := cur +:+ out]> (files w)) (log w ++ evs)))
        as (o' & out' & evs' & -> & Hevs'); [apply lookup_insert_eq|].
      exists o', (out +:+ out'), (evs ++ evs'). simpl.
      rewrite insert_insert_eq, append_assoc, <-app_assoc.
      split; [done|]. by apply Forall_app.
    + exists (Raised e), out, evs. split; [|done]. by erewrite bind_Raised.
Qed.

Lemma loop_event_written_path f e :
  loop_event f e → ∀ p, written_path e = Some p → p = f.
Proof. destruct e; simpl; try done. by intros -> p [= <-]. Qed.

(** Whatever happens in an iteration, it touches no file but the output
    file, and that one only by appending. *)
Lemma step_outcome m tokenizer data f indices w cur :
  files w !! f = Some cur →
  ∃ o out evs,
    step m tokenizer data f indices w
    = (o, World (<[f := cur +:+ out]> (files w)) (log w ++ evs))
    ∧ Forall (λ e, ∀ p, written_path e = Some p → p = f) evs.
Proof.
  intros Hf.
  destruct (step_events m tokenizer data f indices w cur Hf)
    as (o & out & evs & Hstep & Hevs).
  exists o, out, evs. split; [done|].
  eapply Forall_impl; [exact Hevs|]. apply loop_event_written_path.
Qed.

Lemma loop_outcome m tokenizer data f batches w cur :
  files w !! f = Some cur →
  ∃ o out evs,
    for_each batches (step m tokenizer data f) w
    = (o, World (<[f := cur +:+ out]> (files w)) (log w ++ evs))
    ∧ Forall (λ e, ∀ p, written_path e = Some p → p = f) evs.
Proof.
  intros Hf.
  destruct (loop_events m tokenizer data f batches w cur Hf)
    as (o & out & evs & Hloop & Hevs).
  exists o, out, evs. split; [done|].
  eapply Forall_impl; [exact Hevs|]. apply loop_event_written_path.
Qed.

(** A loop all of whose iterations go through: the output file gets the
    lines of the decoded strings, batch after batch, and the events are
    those of the batches in a row. *)
Lemma loop_run m tokenizer data f indices_batches batches decoded_batches w cur :
  Forall2 (λ indices batch, fetch data indices = Returned batch)
    indices_batches batches →
  Forall2 (λ batch decoded, decode_batch m tokenizer batch = Returned decoded)
    batches decoded_batches →
  files w !! f = Some cur →
  for_each indices_batches (step m tokenizer data f) w
  = (Returned tt,
     World (<[f := cur +:+ written (map output_line (concat decoded_batches))]>
              (files w))
           (log w ++ concat (zip_with (batch_events f) batches decoded_batches))).
Proof.
  intros Hfetch. revert decoded_batches w cur.
  induction Hfetch as [|indices batch indices_batches batches Hf1 _ IH];
    intros decoded_batches w cur Hdec Hf.
  - inversion_clear Hdec. simpl.
    by rewrite append_nil_r, insert_id, app_nil_r, world_eta.
  - inversion Hdec as [|? decoded ? decs Hd1 Hrest]; subst.
    cbn [for_each].
    erewrite bind_Returned by by eapply step_ok.
    erewrite IH; [|exact Hrest|apply lookup_insert_eq]. simpl.
    by rewrite insert_insert_eq, map_app, written_app, append_assoc, <-app_assoc.
Qed.

(** *** The dataset and the main program *)

Lemma parse_lines text records :
  Forall2 parses (lines text) records ↔
  comprehension (λ line, or_raise (JSONDecodeError line) (json_loads line))
    (lines text) = Returned records.
Proof.
  rewrite comprehension_Forall2.
  split; intros Hall; (eapply Forall2_impl; [exact Hall|]);
    intros line record; unfold parses;
    destruct (json_loads line); simpl; congruence.
Qed.

Lemma JSONDataset_init_run path text w :
  files w !! path = Some text →
  JSONDataset_init (Some path) w
  = (comprehension (λ line, or_raise (JSONDecodeError line) (json_loads line))
       (lines text),
     World (files w) (log w ++ [EvOpenRead path])).
Proof.
  intros Hf. unfold JSONDataset_init, open_read.
  erewrite bind_Returned; [reflexivity|].
  rewrite bind_emit. unfold lookup_file. simpl. by rewrite Hf.
Qed.

Lemma open_write_run p w :
  open_write p w
  = (Returned tt, World (<[p := EmptyString]> (files w)) (log w ++ [EvOpenWrite p])).
Proof. reflexivity. Qed.

(** A failed check of the options ends the run where it started. *)
Lemma main_check_fails a w e :
  check_args a = Raised e → main a w = (Raised e, w).
Proof. intros He. unfold main. by rewrite (bind_lift_Raised _ _ _ e). Qed.

(** So does an alias that the table does not hold. *)
Lemma main_resolve_fails a w e :
  check_args a = Returned tt → resolve_model a = Raised e →
  main a w = (Raised e, w).
Proof.
  intros Hc Hr. unfold main.
  rewrite (bind_lift_Returned _ _ _ tt) by done.
  by rewrite (bind_lift_Raised _ _ _ e).
Qed.

(** With the options in order, model and tokenizer loaded and the dataset
    read, what is left of the run is the loop over the batches. *)
Lemma main_run a w name label m tokenizer path text records :
  check_args a = Returned tt →
  resolve_model a = Returned (name, label) →
  AutoModel_from_pretrained name = Some m →
  AutoTokenizer_from_pretrained name = Some tokenizer →
  data_path a = Some path →
  files w !! path = Some text →
  Forall2 parses (lines text) records →
  main a w
  = for_each (DataLoader records BATCH_SIZE)
      (step m tokenizer records (predictions_filename label path))
      (started w name path (predictions_filename label path)).
Proof.
  intros Hc Hr Hm Ht Hp Hf Hrec%parse_lines. unfold main.
  rewrite (bind_lift_Returned _ _ _ tt) by done.
  rewrite (bind_lift_Returned _ _ _ (name, label)) by done.
  rewrite bind_emit.
  rewrite (bind_lift_Returned _ _ _ m) by by rewrite Hm.
  rewrite bind_emit.
  rewrite (bind_lift_Returned _ _ _ tokenizer) by by rewrite Ht.
  rewrite Hp.
  erewrite bind_Returned; cycle 1.
  { simpl files. rewrite (JSONDataset_init_run path text) by done.
    rewrite Hrec. reflexivity. }
  erewrite bind_Returned by apply open_write_run.
  unfold started. simpl. by rewrite <-!app_assoc.
Qed.

Lemma main_Returned_inv a w w' :
  main a w = (Returned tt, w') →
  ∃ name label m tokenizer path text records,
    check_args a = Returned tt
    ∧ resolve_model a = Returned (name, label)
    ∧ AutoModel_from_pretrained name = Some m
    ∧ AutoTokenizer_from_pretrained name = Some tokenizer
    ∧ data_path a = Some path
    ∧ files w !! path = Some text
    ∧ Forall2 parses (lines text) records.
Proof.
  unfold main.
  destruct (check_args a) as [[]|e] eqn:Hc; [|done].
  rewrite (bind_lift_Returned _ _ _ tt) by done.
  destruct (resolve_model a) as [[name label]|e] eqn:Hr; [|done].
  rewrite (bind_lift_Returned _ _ _ (name, label)) by done.
  rewrite bind_emit.
  destruct (AutoModel_from_pretrained name) as [m|] eqn:Hm; [|done].
  rewrite (bind_lift_Returned _ _ _ m) by done.
  rewrite bind_emit.
  destruct (AutoTokenizer_from_pretrained name) as [tokenizer|] eqn:Ht; [|done].
  rewrite (bind_lift_Returned _ _ _ tokenizer) by done.
  destruct (data_path a) as [path|] eqn:Hp; [|done].
  simpl files. simpl log.
  set (w1 := World _ _).
  destruct (files w !! path) as [text|] eqn:Hf; cycle 1.
  { erewrite bind_Raised; [done|].
    unfold JSONDataset_init, open_read. erewrite bind_Raised; [done|].
    rewrite bind_emit. unfold lookup_file. simpl. by rewrite Hf. }
  destruct (comprehension
              (λ line, or_raise (JSONDecodeError line) (json_loads line))
              (lines text)) as [records|e] eqn:Hrec.
  - intros _. exists name, label, m, tokenizer, path, text, records.
    split_and!; try done. by apply parse_lines.
  - erewrite bind_Raised; [done|].
    rewrite (JSONDataset_init_run path text) by (simpl; done). by rewrite Hrec.
Qed.

End RunFacts.

(** ** The model options *)

Lemma MODEL_CHECKPOINTS_size : size MODEL_CHECKPOINTS = 6.
Proof. reflexivity. Qed.

(** C5, as it holds on the script. The two checks look at the truth value
    of the options, so an option given as the empty string counts as not
    given. When both options are non-empty, or neither is, the run ends with
    a [ValueError] and the world as it was: no file opened, no model loaded.
    Both cases raise the same kind of exception at the same place, with
    different messages. *)
Theorem main_model_options_checked `{Library} (a : args) (w : world) :
  truthy (model a) = truthy (model_name_or_path a) →
  main a w
  = (Raised (ValueError
       (if truthy (model a)
        then "Specify model or model_name_or_path but not both"
        else "Model is required")), w)
  ∧ exit_status (main a w).1 = 1%Z.
Proof.
  intros Heq.
  assert (main a w
          = (Raised (ValueError
               (if truthy (model a)
                then "Specify model or model_name_or_path but not both"
                else "Model is required")), w)) as Hmain.
  { apply main_check_fails. unfold check_args. rewrite <-Heq.
    by destruct (truthy (model a)). }
  by rewrite Hmain.
Qed.

(** C5 with both options given, and with neither. *)
Lemma main_model_options_checked_witness :
  main (H:=Stub.pegasus)
    (Args (Some "bart-xsum") (Some "facebook/bart-large-xsum") (Some Stub.xsum_path))
    Stub.two_record_world
  = (Raised (ValueError "Specify model or model_name_or_path but not both"),
     Stub.two_record_world)
  ∧ main (H:=Stub.pegasus) (Args None None (Some Stub.xsum_path))
      Stub.two_record_world
    = (Raised (ValueError "Model is required"), Stub.two_record_world).
Proof.
  split.
  - apply (main_model_options_checked (H:=Stub.pegasus)
             (Args (Some "bart-xsum") (Some "facebook/bart-large-xsum")
                   (Some Stub.xsum_path))). reflexivity.
  - apply (main_model_options_checked (H:=Stub.pegasus)
             (Args None None (Some Stub.xsum_path))). reflexivity.
Defined.

(** C5 as the claim states it fails when one of the two options is given as
    the empty string: both options are supplied, yet the run passes the
    checks, loads the model named by the other option and ends normally. *)
Lemma main_both_supplied_counterexample :
  is_Some (model Stub.empty_alias_and_cnn)
  ∧ is_Some (model_name_or_path Stub.empty_alias_and_cnn)
  ∧ (main (H:=Stub.pegasus) Stub.empty_alias_and_cnn Stub.two_record_world).1
    = Returned tt
  ∧ log (main (H:=Stub.pegasus) Stub.empty_alias_and_cnn Stub.two_record_world).2 !! 0
    = Some (EvLoadModel "facebook/bart-large-cnn")
  ∧ ¬ ∃ e, main (H:=Stub.pegasus) Stub.empty_alias_and_cnn Stub.two_record_world
           = (Raised e, Stub.two_record_world).
Proof.
  split_and!; [by eexists|by eexists|reflexivity|reflexivity|].
  intros [e He]. apply (f_equal fst) in He. vm_compute in He. discriminate He.
Qed.

(** C8, as it holds on the script. A non-empty alias that is not a key of
    the table ends the run before anything is loaded or opened, with exit
    status 1: with the [KeyError] of the lookup, which carries the alias,
    when the other option is absent or empty, and with the [ValueError] of
    the check before it otherwise. *)
Theorem main_unknown_alias `{Library} (a : args) (w : world) (alias : string) :
  model a = Some alias →
  alias ≠ EmptyString →
  MODEL_CHECKPOINTS !! alias = None →
  main a w
  = (Raised (if truthy (model_name_or_path a)
             then ValueError "Specify model or model_name_or_path but not both"
             else KeyError alias), w)
  ∧ exit_status (main a w).1 = 1%Z.
Proof.
  intros Hm Hne Hnone.
  assert (truthy (model a) = true) as Ht by (rewrite Hm; by destruct alias).
  assert (main a w
          = (Raised (if truthy (model_name_or_path a)
                     then ValueError "Specify model or model_name_or_path but not both"
                     else KeyError alias), w)) as Hmain.
  { destruct (truthy (model_name_or_path a)) eqn:Ho.
    - apply main_check_fails. unfold check_args. by rewrite Ht, Ho.
    - apply main_resolve_fails.
      + unfold check_args. by rewrite Ht, Ho.
      + unfold resolve_model. rewrite Ht, Hm. simpl. by rewrite Hnone. }
  by rewrite Hmain.
Qed.

(** C8 on an alias that the table does not hold. *)
Lemma main_unknown_alias_witness :
  main (H:=Stub.pegasus) (Stub.by_alias "bart-large") Stub.two_record_world
  = (Raised (KeyError "bart-large"), Stub.two_record_world).
Proof.
  apply (main_unknown_alias (H:=Stub.pegasus) (Stub.by_alias "bart-large")
           Stub.two_record_world "bart-large");
    [reflexivity|discriminate|reflexivity].
Defined.

(** C8 as the claim states it fails on the empty alias: it is not a key of
    the table, yet next to a non-empty [--model_name_or_path] the run goes on
    to load that model and ends normally. *)
Lemma main_empty_alias_counterexample :
  model Stub.empty_alias_and_pegasus = Some EmptyString
  ∧ MODEL_CHECKPOINTS !! EmptyString = None
  ∧ (main (H:=Stub.pegasus) Stub.empty_alias_and_pegasus Stub.two_record_world).1
    = Returned tt
  ∧ log (main (H:=Stub.pegasus) Stub.empty_alias_and_pegasus Stub.two_record_world).2 !! 0
    = Some (EvLoadModel "google/pegasus-xsum").
Proof. split_and!; reflexivity. Qed.

(** ** The dataset loader *)

(** C6. The loader opens the file and parses its lines one by one, in
    order. When every line parses, it returns the parsed values in the order
    of the lines, whatever they are: nothing is asked of a record, a
    ["document"] entry least of all. When some line does not parse, the whole
    load fails with the decoding error of the first such line, and no record
    is returned. *)
Theorem JSONDataset_init_loads `{Library} (path text : string) (w : world) :
  files w !! path = Some text →
  (∀ records,
     Forall2 parses (lines text) records →
     JSONDataset_init (Some path) w
     = (Returned records, World (files w) (log w ++ [EvOpenRead path])))
  ∧ (∀ line,
       line ∈ lines text → json_loads line = None →
       ∃ before bad after,
         lines text = before ++ bad :: after
         ∧ Forall (λ l, is_Some (json_loads l)) before
         ∧ json_loads bad = None
         ∧ JSONDataset_init (Some path) w
           = (Raised (JSONDecodeError bad),
              World (files w) (log w ++ [EvOpenRead path]))).
Proof.
  intros Hf. rewrite (JSONDataset_init_run path text) by done. split.
  - intros records Hrec%parse_lines. by rewrite Hrec.
  - intros line Hin Hbad.
    destruct (comprehension _ (lines text)) as [records|e] eqn:Hc.
    + apply comprehension_Forall2 in Hc.
      apply list_elem_of_lookup in Hin as [i Hi].
      destruct (Forall2_lookup_l _ _ _ _ _ Hc Hi) as (r & _ & Hr).
      by rewrite Hbad in Hr.
    + destruct (comprehension_first_failure _ _ _ Hc)
        as (before & bad & after & Hl & Hb & Hx).
      destruct (json_loads bad) eqn:Hbad'; [done|]. injection Hx as <-.
      exists before, bad, after. split_and!; try done.
      eapply Forall_impl; [exact Hb|]. intros l [y Hy].
      destruct (json_loads l); [by eexists|done].
Qed.

(** C6 on a file whose second record has no document. *)
Lemma JSONDataset_init_loads_witness :
  JSONDataset_init (H:=Stub.pegasus) (Some Stub.xsum_path)
    (Stub.world_with (Stub.document_line "first" +:+ "{}"))
  = (Returned [JObject [("document", JString "first")]; JObject []],
     World {[ Stub.xsum_path := Stub.document_line "first" +:+ "{}" ]}
           [EvOpenRead Stub.xsum_path]).
Proof.
  destruct (JSONDataset_init_loads (H:=Stub.pegasus) Stub.xsum_path
              (Stub.document_line "first" +:+ "{}")
              (Stub.world_with (Stub.document_line "first" +:+ "{}")))
    as [Hok _]; [reflexivity|].
  apply Hok. repeat constructor.
Defined.

(** ** The output file *)

(** C10. On a dataset file with no lines, with the options in order and
    model and tokenizer loaded, the run ends normally after opening the
    output file of the computed name: the file is there and empty, whatever
    it held before, no other file has changed, and the loop has not run once
    (nothing generated, nothing written). *)
Theorem main_empty_dataset `{Library} (a : args) (w : world)
    (name label path text : string) (m : Model) (tokenizer : Tokenizer) :
  check_args a = Returned tt →
  resolve_model a = Returned (name, label) →
  AutoModel_from_pretrained name = Some m →
  AutoTokenizer_from_pretrained name = Some tokenizer →
  data_path a = Some path →
  files w !! path = Some text →
  lines text = [] →
  let filename := predictions_filename label path in
  main a w
  = (Returned tt,
     World (<[filename := EmptyString]> (files w))
           (log w ++ [EvLoadModel name; EvLoadTokenizer name;
                      EvOpenRead path; EvOpenWrite filename]))
  ∧ files (main a w).2 !! filename = Some EmptyString.
Proof.
  intros Hc Hr Hm Ht Hp Hf Hlines filename.
  assert (main a w
          = (Returned tt, started w name path filename)) as Hmain.
  { rewrite (main_run a w name label m tokenizer path text []); try done.
    rewrite Hlines. constructor. }
  rewrite Hmain. split; [done|]. apply lookup_insert_eq.
Qed.

(** C10 on an empty dataset, with an output file left from an earlier run. *)
Lemma main_empty_dataset_witness :
  main (H:=Stub.pegasus) (Stub.by_alias "pegasus-xsum") Stub.empty_dataset_world
  = (Returned tt,
     World (<["pegasus-xsum.xsum.predictions" := EmptyString]>
              (files Stub.empty_dataset_world))
           [EvLoadModel "google/pegasus-xsum"; EvLoadTokenizer "google/pegasus-xsum";
            EvOpenRead "data/xsum.jsonl";
            EvOpenWrite "pegasus-xsum.xsum.predictions"])
  ∧ files Stub.empty_dataset_world !! "pegasus-xsum.xsum.predictions"
    = Some "stale".
Proof.
  split; [|reflexivity].
  apply (main_empty_dataset (H:=Stub.pegasus) (Stub.by_alias "pegasus-xsum")
           Stub.empty_dataset_world "google/pegasus-xsum" "pegasus-xsum"
           Stub.xsum_path EmptyString tt tt); reflexivity.
Defined.

(** C7. A run that ends normally has opened exactly one file for writing
    and written to no other: the file [label.base.predictions], where [base]
    is the base name of the dataset path without its extension and [label]
    is the alias when the script goes by [--model] (the model loaded is then
    the table's checkpoint for that alias), and the [--model_name_or_path]
    value with every ['/'] replaced by ['-'] otherwise. No other file has
    changed. With [--model bart-xsum] and the dataset [data/xsum.jsonl] the
    checkpoint is [facebook/bart-large-xsum] and the file is
    [bart-xsum.xsum.predictions]. *)
Theorem main_output_filename `{Library} (a : args) (w w' : world) :
  main a w = (Returned tt, w') →
  ∃ name label path out evs,
    let base := (PosixPath.splitext (PosixPath.basename path)).1 in
    let filename := label +:+ "." +:+ base +:+ ".predictions" in
    data_path a = Some path
    ∧ (if truthy (model a)
       then label = value (model a) ∧ MODEL_CHECKPOINTS !! label = Some name
       else name = value (model_name_or_path a)
            ∧ label = PyStr.replace "/" "-" name
            ∧ label = PyStr.translate "/" "-" name)
    ∧ files w' = <[filename := out]> (files w)
    ∧ log w' = log w ++ EvLoadModel name :: EvLoadTokenizer name
                 :: EvOpenRead path :: EvOpenWrite filename :: evs
    ∧ Forall (λ e, ∀ p, written_path e = Some p → p = filename) evs
    ∧ resolve_model (Args (Some "bart-xsum") None (Some "data/xsum.jsonl"))
      = Returned ("facebook/bart-large-xsum", "bart-xsum")
    ∧ predictions_filename "bart-xsum" "data/xsum.jsonl"
      = "bart-xsum.xsum.predictions".
Proof.
  intros Hmain.
  destruct (main_Returned_inv a w w' Hmain)
    as (name & label & m & tokenizer & path & text & records
        & Hc & Hr & Hm & Ht & Hp & Hf & Hrec).
  rewrite (main_run a w name label m tokenizer path text records) in Hmain
    by done.
  set (filename := predictions_filename label path) in *.
  destruct (loop_outcome m tokenizer records filename
              (DataLoader records BATCH_SIZE)
              (started w name path filename) EmptyString)
    as (o & out & evs & Hloop & Hevs); [apply lookup_insert_eq|].
  rewrite Hloop in Hmain. injection Hmain as -> <-.
  exists name, label, path, out, evs. simpl.
  split_and!; try done.
  - unfold resolve_model in Hr. destruct (truthy (model a)).
    + destruct (MODEL_CHECKPOINTS !! value (model a)) eqn:Hl; [|done].
      by injection Hr as <- <-.
    + injection Hr as <- <-. split_and!; [done|done|apply replace_char].
  - by rewrite insert_insert_eq.
  - by rewrite <-app_assoc.
Qed.

(** C7 on a run by identifier. *)
Lemma main_output_filename_witness :
  ∃ out evs,
    files (main (H:=Stub.pegasus) Stub.by_identifier Stub.two_record_world).2
    = <["google-pegasus-xsum.xsum.predictions" := out]> (files Stub.two_record_world)
    ∧ log (main (H:=Stub.pegasus) Stub.by_identifier Stub.two_record_world).2
      = EvLoadModel "google/pegasus-xsum" :: EvLoadTokenizer "google/pegasus-xsum"
          :: EvOpenRead "data/xsum.jsonl"
          :: EvOpenWrite "google-pegasus-xsum.xsum.predictions" :: evs.
Proof.
  destruct (main_output_filename (H:=Stub.pegasus) Stub.by_identifier
              Stub.two_record_world
              (main (H:=Stub.pegasus) Stub.by_identifier Stub.two_record_world).2)
    as (name & label & path & out & evs & Hp & Hl & Hfiles & Hlog & _);
    [reflexivity|].
  injection Hp as <-. simpl in Hl. destruct Hl as (-> & -> & _).
  exists out, evs. split; [exact Hfiles|exact Hlog].
Defined.

(** ** One line per record *)

Section OrderFacts.

(** In a list of chunks whose first [k] all have [size] elements, element
    [j] of chunk [k] is element [k * size + j] of the whole. *)
Lemma lookup_concat_uniform {A : Type} (size : nat) (chunks : list (list A))
    k j chunk x :
  (∀ k' c, k' < k → chunks !! k' = Some c → length c = size) →
  chunks !! k = Some chunk → chunk !! j = Some x →
  concat chunks !! (k * size + j) = Some x.
Proof.
  revert chunks. induction k as [|k IH]; intros [|c chunks] Hsize Hk Hj;
    try done; simpl in *.
  - injection Hk as ->. by apply lookup_app_l_Some.
  - assert (length c = size) as Hc by (by apply (Hsize 0); [lia|]).
    rewrite lookup_app_r by lia.
    replace (size + k * size + j - length c) with (k * size + j) by lia.
    apply IH; [|done|done]. intros k' c' Hk' Hc'.
    apply (Hsize (S k')); [lia|done].
Qed.

Lemma Forall_exists_Forall2 {A B : Type} (R : A → B → Prop) (l : list A) :
  Forall (λ x, ∃ y, R x y) l → ∃ ys, Forall2 R l ys.
Proof.
  induction 1 as [|x l [y Hy] _ [ys Hys]]; [by exists []|].
  exists (y :: ys). by constructor.
Qed.

Lemma Forall2_concat_length {A B : Type} (xss : list (list A)) (yss : list (list B)) :
  Forall2 (λ xs ys, length ys = length xs) xss yss →
  length (concat yss) = length (concat xss).
Proof.
  induction 1 as [|xs ys xss yss Hl _ IH]; [done|].
  simpl. rewrite !length_app. lia.
Qed.

Lemma writes_app evs evs' : writes (evs ++ evs') = writes evs ++ writes evs'.
Proof. apply omap_app. Qed.

Lemma writes_batch_events f batch decoded :
  writes (batch_events f batch decoded)
  = map (λ summary, (f, output_line summary)) decoded.
Proof.
  unfold batch_events, writes. simpl.
  induction decoded as [|d decoded IH]; [done|]. simpl. by rewrite IH.
Qed.

(** The writes of a loop that goes through: one per decoded string. *)
Lemma writes_batches f (batches : list (list json)) (decs : list (list string)) :
  length batches = length decs →
  writes (concat (zip_with (batch_events f) batches decs))
  = map (λ summary, (f, output_line summary)) (concat decs).
Proof.
  revert decs. induction batches as [|b batches IH]; intros [|d decs] Hlen;
    try done.
  cbn [zip_with concat].
  rewrite writes_app, writes_batch_events, map_app, IH; [done|].
  simpl in Hlen. lia.
Qed.

End OrderFacts.

(** C1, as it holds on the script. Let the library return, for every
    batch of the run, collated and read at its ["document"] entry, one
    decoded string per record of the batch, none with a line feed in it.
    Then the run ends normally, it writes to the output file exactly once
    per record, each time one line, and the output file has exactly one line
    per record, in the order of the records: line [i] is the post-processed
    summary, with its line feed, that the library returned at the place of
    record [i] in the batch of record [i]. *)
Theorem main_one_line_per_record `{Library} (a : args) (w : world)
    (name label path text : string) (m : Model) (tokenizer : Tokenizer)
    (records : list json) :
  check_args a = Returned tt →
  resolve_model a = Returned (name, label) →
  AutoModel_from_pretrained name = Some m →
  AutoTokenizer_from_pretrained name = Some tokenizer →
  data_path a = Some path →
  files w !! path = Some text →
  Forall2 parses (lines text) records →
  (∀ batch,
     batch ∈ BatchSampler BATCH_SIZE records →
     ∃ decoded,
       decode_batch m tokenizer batch = Returned decoded
       ∧ length decoded = length batch
       ∧ Forall single_line decoded) →
  ∃ w' out evs,
    main a w = (Returned tt, w')
    ∧ files w' !! predictions_filename label path = Some out
    ∧ log w'
      = log w ++ EvLoadModel name :: EvLoadTokenizer name :: EvOpenRead path
          :: EvOpenWrite (predictions_filename label path) :: evs
    ∧ writes evs = map (λ line, (predictions_filename label path, line)) (lines out)
    ∧ length (lines out) = length records
    ∧ length (lines out) = length (lines text)
    ∧ ∀ i record, records !! i = Some record →
        ∃ batch decoded summary,
          BatchSampler BATCH_SIZE records !! (i / BATCH_SIZE) = Some batch
          ∧ batch !! (i mod BATCH_SIZE) = Some record
          ∧ decode_batch m tokenizer batch = Returned decoded
          ∧ decoded !! (i mod BATCH_SIZE) = Some summary
          ∧ lines out !! i = Some (output_line summary).
Proof.
  intros Hc Hr Hm Ht Hp Hf Hrec Hlib.
  set (filename := predictions_filename label path).
  set (batches := BatchSampler BATCH_SIZE records).
  assert (concat batches = records) as Hcat
    by apply (batch_go_concat BATCH_SIZE [] records).
  (* what the library returns for each batch *)
  assert (∃ decs, Forall2 (λ batch decoded,
            decode_batch m tokenizer batch = Returned decoded
            ∧ length decoded = length batch
            ∧ Forall single_line decoded) batches decs) as [decs Hdecs].
  { apply Forall_exists_Forall2, Forall_forall. intros batch Hin.
    destruct (Hlib batch Hin) as (decoded & Hd & Hlen & Hsl). by exists decoded. }
  (* the run *)
  pose proof (loop_run m tokenizer records filename
                (DataLoader records BATCH_SIZE) batches decs
                (started w name path filename) EmptyString
                (fetch_batches records BATCH_SIZE)) as Hloop.
  rewrite append_nil_l in Hloop.
  specialize (Hloop ltac:(eapply Forall2_impl; [exact Hdecs|]; by intros ?? [? _])
                    ltac:(apply lookup_insert_eq)).
  set (out := written (map output_line (concat decs))) in *.
  assert (lines out = map output_line (concat decs)) as Hlines.
  { unfold out, output_line.
    rewrite <-(map_map postprocess_one (λ p, p +:+ newline)).
    apply lines_written, Forall_map, Forall_concat.
    eapply Forall_impl.
    - eapply Forall2_Forall_r; [exact Hdecs|]. apply Forall_true.
      intros batch decoded (_ & _ & Hsl). exact Hsl.
    - intros decoded Hsl. simpl.
      eapply Forall_impl; [exact Hsl|]. apply postprocess_one_single_line. }
  assert (length (concat decs) = length records) as Hlen.
  { rewrite <-Hcat. apply Forall2_concat_length.
    eapply Forall2_impl; [exact Hdecs|]. by intros ?? (_ & ? & _). }
  eexists _, out, _. split_and!.
  - rewrite (main_run a w name label m tokenizer path text records) by done.
    exact Hloop.
  - simpl. apply lookup_insert_eq.
  - simpl. by rewrite <-app_assoc.
  - rewrite Hlines, map_map.
    apply writes_batches. eapply Forall2_length, Hdecs.
  - by rewrite Hlines, length_map.
  - rewrite Hlines, length_map, Hlen. symmetry. by eapply Forall2_length.
  - intros i record Hi.
    assert (i < length records) as HiN by by eapply lookup_lt_Some.
    pose proof (Nat.div_mod_eq i BATCH_SIZE) as Hdm.
    assert (i mod BATCH_SIZE < BATCH_SIZE) as Hj
      by (apply Nat.mod_upper_bound; unfold BATCH_SIZE; lia).
    set (k := i / BATCH_SIZE) in *. set (j := i mod BATCH_SIZE) in *.
    assert (batches !! k = Some (take BATCH_SIZE (drop (k * BATCH_SIZE) records)))
      as Hk.
    { unfold batches. rewrite BatchSampler_lookup by (unfold BATCH_SIZE; lia).
      rewrite bool_decide_true; [done|lia]. }
    set (batch := take BATCH_SIZE (drop (k * BATCH_SIZE) records)) in *.
    assert (batch !! j = Some record) as Hbj.
    { unfold batch. rewrite lookup_take_lt, lookup_drop by done.
      rewrite <-Hi. f_equal. lia. }
    destruct (Forall2_lookup_l _ _ _ _ _ Hdecs Hk)
      as (decoded & Hdk & Hd & Hlenb & _).
    assert (is_Some (decoded !! j)) as [summary Hsum].
    { apply lookup_lt_is_Some. rewrite Hlenb. by eapply lookup_lt_Some. }
    exists batch, decoded, summary. split_and!; try done.
    rewrite Hlines, list_lookup_fmap.
    replace i with (k * BATCH_SIZE + j) by lia.
    erewrite (lookup_concat_uniform BATCH_SIZE decs k j); [done| |done|done].
    intros k' c Hk' Hck.
    destruct (Forall2_lookup_r _ _ _ _ _ Hdecs Hck)
      as (batch' & Hb' & _ & Hlen' & _).
    rewrite Hlen'. unfold batches in Hb'.
    rewrite BatchSampler_lookup in Hb' by (unfold BATCH_SIZE; lia).
    case_bool_decide; [|done]. injection Hb' as <-.
    rewrite length_take, length_drop. nia.
Qed.

(** C1 on two records and a model in the manner of Pegasus. *)
Lemma main_one_line_per_record_witness :
  ∃ w' out evs,
    main (H:=Stub.pegasus) (Stub.by_alias "bart-xsum") Stub.two_record_world
    = (Returned tt, w')
    ∧ files w' !! "bart-xsum.xsum.predictions" = Some out
    ∧ writes evs = map (λ line, ("bart-xsum.xsum.predictions", line)) (lines out)
    ∧ length (lines out) = 2.
Proof.
  destruct (main_one_line_per_record (H:=Stub.pegasus)
              (Stub.by_alias "bart-xsum") Stub.two_record_world
              "facebook/bart-large-xsum" "bart-xsum" Stub.xsum_path
              Stub.two_records tt tt Stub.two_parsed)
    as (w' & out & evs & Hmain & Hout & _ & Hwrites & Hlen & _);
    try reflexivity.
  - repeat constructor.
  - intros batch Hin.
    change (BatchSampler BATCH_SIZE Stub.two_parsed) with [Stub.two_parsed] in Hin.
    apply list_elem_of_singleton in Hin as ->.
    eexists. split_and!; [reflexivity|reflexivity|].
    repeat constructor.
  - exists w', out, evs. split_and!; [exact Hmain|exact Hout|exact Hwrites|exact Hlen].
Defined.

(** C1 as the claim states it fails when a summary holds a line feed: every
    record has its document and the library returns one string per record of
    the batch, yet the output file of the two records has four lines. *)
Lemma main_line_count_counterexample :
  Forall2 (parses (H:=Stub.two_liner)) (lines Stub.two_records) Stub.two_parsed
  ∧ Forall (λ record, is_Some (document_text record)) Stub.two_parsed
  ∧ decode_batch (H:=Stub.two_liner) tt tt Stub.two_parsed
    = Returned ["first" +:+ newline +:+ "the end";
                "second" +:+ newline +:+ "the end"]
  ∧ (main (H:=Stub.two_liner) (Stub.by_alias "bart-xsum") Stub.two_record_world).1
    = Returned tt
  ∧ lines <$> files (main (H:=Stub.two_liner) (Stub.by_alias "bart-xsum")
                       Stub.two_record_world).2 !! "bart-xsum.xsum.predictions"
    = Some ["first" +:+ newline; "the end" +:+ newline;
            "second" +:+ newline; "the end" +:+ newline]
  ∧ length Stub.two_parsed = 2
  ∧ length <$> (lines <$> files (main (H:=Stub.two_liner) (Stub.by_alias "bart-xsum")
                                   Stub.two_record_world).2
                          !! "bart-xsum.xsum.predictions")
    ≠ Some (length Stub.two_parsed).
Proof.
  split_and!; try reflexivity.
  - repeat constructor.
  - repeat constructor; by eexists.
  - vm_compute. discriminate.
Qed.

(** * Further properties *)

(** ** Characters and paths *)

Section CharFacts.

Lemma contains_char_cons c x s :
  PyStr.contains (String c EmptyString) (String x s)
  = Ascii.eqb x c || PyStr.contains (String c EmptyString) s.
Proof.
  rewrite contains_cons. f_equal. cbn [String.prefix].
  destruct (ascii_dec c x) as [->|Hne].
  - rewrite Ascii.eqb_refl. by destruct s.
  - by destruct (Ascii.eqb_spec x c) as [->|_].
Qed.

Lemma contains_char_app c a b :
  PyStr.contains (String c EmptyString) (a +:+ b)
  = PyStr.contains (String c EmptyString) a
    || PyStr.contains (String c EmptyString) b.
Proof.
  induction a as [|x a IH]; [done|].
  by rewrite append_cons, !contains_char_cons, IH, orb_assoc.
Qed.

Lemma length_append a b :
  String.length (a +:+ b) = String.length a + String.length b.
Proof. induction a as [|x a IH]; [done|]. rewrite append_cons. simpl. by rewrite IH. Qed.

Lemma take_drop k s : PosixPath.take k s +:+ PyStr.drop k s = s.
Proof.
  revert s. induction k as [|k IH]; intros [|x s]; try done.
  simpl. by rewrite append_cons, IH.
Qed.

Lemma take_append a b : PosixPath.take (String.length a) (a +:+ b) = a.
Proof.
  induction a as [|x a IH]; [by destruct b|].
  rewrite append_cons. simpl. by rewrite IH.
Qed.

Lemma length_take_le k s : String.length (PosixPath.take k s) ≤ String.length s.
Proof.
  revert s. induction k as [|k IH]; intros [|x s]; simpl; try lia.
  specialize (IH s). lia.
Qed.

(** *** [rfind] *)

Lemma rfind_go_app c a b i last :
  PosixPath.rfind_go c (a +:+ b) i last
  = PosixPath.rfind_go c b (i + Z.of_nat (String.length a))
      (PosixPath.rfind_go c a i last).
Proof.
  revert i last. induction a as [|x a IH]; intros i last.
  - simpl. by rewrite Z.add_0_r.
  - rewrite append_cons. cbn [PosixPath.rfind_go String.length].
    rewrite IH. f_equal. lia.
Qed.

Lemma rfind_go_absent c s i last :
  PyStr.contains (String c EmptyString) s = false →
  PosixPath.rfind_go c s i last = last.
Proof.
  revert i last. induction s as [|x s IH]; intros i last; [done|].
  rewrite contains_char_cons. intros [Hx Hs]%orb_false_iff.
  cbn [PosixPath.rfind_go]. rewrite Hx. by apply IH.
Qed.

(** The index of the last [c], when what follows it holds no [c]. *)
Lemma rfind_last c a b :
  PyStr.contains (String c EmptyString) b = false →
  PosixPath.rfind c (a +:+ String c b) = Z.of_nat (String.length a).
Proof.
  intros Hb. unfold PosixPath.rfind. rewrite rfind_go_app.
  cbn [PosixPath.rfind_go]. rewrite Ascii.eqb_refl.
  rewrite rfind_go_absent by done. lia.
Qed.

Lemma rfind_absent c s :
  PyStr.contains (String c EmptyString) s = false → PosixPath.rfind c s = (-1)%Z.
Proof. apply rfind_go_absent. Qed.

(** A string holds no [c], or splits at its last [c]. *)
Lemma last_split c s :
  PyStr.contains (String c EmptyString) s = false
  ∨ ∃ a b, s = a +:+ String c b ∧ PyStr.contains (String c EmptyString) b = false.
Proof.
  induction s as [|x s [IH|(a & b & -> & Hb)]].
  - by left.
  - destruct (Ascii.eqb_spec x c) as [->|Hne].
    + right. by exists EmptyString, s.
    + left. rewrite contains_char_cons, IH.
      by destruct (Ascii.eqb_spec x c).
  - right. by exists (String x a), b.
Qed.

End CharFacts.

Section PathFacts.

Lemma rfind_ge c s : (-1 ≤ PosixPath.rfind c s)%Z.
Proof.
  destruct (last_split c s) as [Hs|(a & b & -> & Hb)].
  - by rewrite rfind_absent.
  - rewrite rfind_last by done. lia.
Qed.

Lemma drop_past c a b :
  PyStr.drop (S (String.length a)) (a +:+ String c b) = b.
Proof. induction a as [|x a IH]; [by destruct b|]. by rewrite append_cons. Qed.

Lemma drop_to c a b :
  PyStr.drop (String.length a) (a +:+ String c b) = String c b.
Proof. apply drop_append. Qed.

Lemma basename_whole p :
  PyStr.contains "/" p = false → PosixPath.basename p = p.
Proof.
  intros Hp. unfold PosixPath.basename, PosixPath.slice_from.
  rewrite rfind_absent by done. by destruct p.
Qed.

Lemma basename_last a b :
  PyStr.contains "/" b = false → PosixPath.basename (a +:+ String "/" b) = b.
Proof.
  intros Hb. unfold PosixPath.basename, PosixPath.slice_from.
  rewrite rfind_last by done.
  replace (Z.to_nat (Z.of_nat (String.length a) + 1)) with (S (String.length a))
    by lia.
  apply drop_past.
Qed.

Lemma basename_no_sep p : PyStr.contains "/" (PosixPath.basename p) = false.
Proof.
  destruct (last_split "/" p) as [Hp|(a & b & -> & Hb)].
  - by rewrite basename_whole.
  - by rewrite basename_last.
Qed.

Lemma basename_app a b :
  PyStr.contains "/" b = false →
  PosixPath.basename (a +:+ b) = PosixPath.basename a +:+ b.
Proof.
  intros Hb. destruct (last_split "/" a) as [Ha|(a1 & a2 & -> & Ha2)].
  - rewrite !basename_whole; try done. by rewrite contains_char_app, Ha, Hb.
  - rewrite append_assoc, append_cons, !basename_last; try done.
    by rewrite contains_char_app, Ha2, Hb.
Qed.

Lemma splitext_join p :
  (PosixPath.splitext p).1 +:+ (PosixPath.splitext p).2 = p.
Proof.
  unfold PosixPath.splitext.
  case_bool_decide; [|apply append_nil_r].
  destruct (PosixPath.has_non_dot _ _ _); [|apply append_nil_r].
  apply take_drop.
Qed.

Lemma splitext_ext p :
  (PosixPath.splitext p).2 = EmptyString
  ∨ ∃ b, (PosixPath.splitext p).2 = String "." b ∧ PyStr.contains "." b = false.
Proof.
  unfold PosixPath.splitext.
  case_bool_decide as Hlt; [|by left].
  destruct (PosixPath.has_non_dot _ _ _); [|by left].
  right. pose proof (rfind_ge "/" p) as Hsep.
  destruct (last_split "." p) as [Hp|(a & b & -> & Hb)].
  - rewrite (rfind_absent "." p) in Hlt by done. lia.
  - exists b. split; [|done]. simpl. unfold PosixPath.slice_from.
    rewrite (rfind_last "." a b) by done. rewrite Nat2Z.id. apply drop_to.
Qed.

(** Where the last dot of a name without directory is, the root is at
    least what stands in front of that dot. *)
Lemma splitext_root_length x b :
  PyStr.contains "/" (x +:+ String "." b) = false →
  PyStr.contains "." b = false →
  String.length x ≤ String.length (PosixPath.splitext (x +:+ String "." b)).1.
Proof.
  intros Hsep Hb. unfold PosixPath.splitext.
  rewrite (rfind_last "." x b) by done.
  case_bool_decide; [|cbn [fst]; rewrite length_append; lia].
  destruct (PosixPath.has_non_dot _ _ _); cbn [fst].
  - unfold PosixPath.slice_to. by rewrite Nat2Z.id, take_append.
  - rewrite length_append. lia.
Qed.

Lemma has_non_dot_shift x p start n :
  PosixPath.has_non_dot (String x p) (S start) n = PosixPath.has_non_dot p start n.
Proof.
  revert start. induction n as [|n IH]; intros start; [done|].
  cbn [PosixPath.has_non_dot String.get]. rewrite IH.
  replace (match start with 0 | _ => String.get start p end) with (String.get start p)
    by by destruct start.
  done.
Qed.

(** The loop over the leading dots, on what stands in front of the last
    dot. *)
Lemma has_non_dot_prefix a rest :
  PosixPath.has_non_dot (a +:+ rest) 0 (String.length a) = negb (only_dots a).
Proof.
  induction a as [|c a IH]; [done|].
  rewrite append_cons. cbn [String.length PosixPath.has_non_dot String.get only_dots].
  destruct (Ascii.eqb c "."); [|done].
  by rewrite has_non_dot_shift, IH.
Qed.

Lemma splitext_no_dot p :
  PyStr.contains "." p = false → PosixPath.splitext p = (p, EmptyString).
Proof.
  intros Hp. unfold PosixPath.splitext.
  rewrite (rfind_absent "." p) by done.
  pose proof (rfind_ge "/" p). by rewrite bool_decide_false by lia.
Qed.

(** [splitext] on a name without directory that has a dot: the extension
    starts at the last dot, unless only dots stand in front of it. *)
Lemma splitext_last_dot a b :
  PyStr.contains "/" (a +:+ String "." b) = false →
  PyStr.contains "." b = false →
  PosixPath.splitext (a +:+ String "." b)
  = if only_dots a then (a +:+ String "." b, EmptyString) else (a, String "." b).
Proof.
  intros Hsep Hb. unfold PosixPath.splitext.
  rewrite (rfind_absent "/" _ Hsep), (rfind_last "." a b) by done.
  rewrite bool_decide_true by lia.
  replace (Z.to_nat (-1 + 1)) with 0 by lia.
  replace (Z.to_nat (Z.of_nat (String.length a) - (-1 + 1))) with (String.length a)
    by lia.
  rewrite has_non_dot_prefix.
  destruct (only_dots a); [done|]. cbn [negb].
  unfold PosixPath.slice_to, PosixPath.slice_from.
  by rewrite Nat2Z.id, take_append, drop_to.
Qed.

(** A string splits at its last [c] in one way only. *)
Lemma last_split_unique c a b a' b' :
  a +:+ String c b = a' +:+ String c b' →
  PyStr.contains (String c EmptyString) b = false →
  PyStr.contains (String c EmptyString) b' = false →
  a = a' ∧ b = b'.
Proof.
  intros Heq Hb Hb'.
  assert (String.length a = String.length a') as Hlen.
  { apply Nat2Z.inj. rewrite <-(rfind_last c a b), <-(rfind_last c a' b') by done.
    by rewrite Heq. }
  split.
  - rewrite <-(take_append a (String c b)), Heq, Hlen. apply take_append.
  - rewrite <-(drop_past c a b), Heq, Hlen. apply drop_past.
Qed.

Lemma splitext_root_no_sep p :
  PyStr.contains "/" p = false → PyStr.contains "/" (PosixPath.splitext p).1 = false.
Proof.
  intros Hp. rewrite <-(splitext_join p), contains_char_app in Hp.
  by apply orb_false_iff in Hp as [? _].
Qed.

Lemma predictions_filename_sep label path :
  PyStr.contains "/" (predictions_filename label path) = PyStr.contains "/" label.
Proof.
  unfold predictions_filename. rewrite !contains_char_app.
  rewrite splitext_root_no_sep by apply basename_no_sep.
  by rewrite !orb_false_r.
Qed.

(** The output file is not the dataset file. *)
Lemma predictions_filename_fresh label path :
  predictions_filename label path ≠ path.
Proof.
  intros Heq.
  set (root := (PosixPath.splitext (PosixPath.basename path)).1).
  assert (PyStr.contains "/" root = false) as Hroot
    by apply splitext_root_no_sep, basename_no_sep.
  assert (PosixPath.basename path
          = (PosixPath.basename label +:+ "." +:+ root) +:+ ".predictions") as Hbase.
  { rewrite <-Heq at 1. unfold predictions_filename. fold root.
    rewrite basename_app, append_assoc; [done|].
    by rewrite !contains_char_app, Hroot. }
  assert (String.length (PosixPath.basename label +:+ "." +:+ root)
          ≤ String.length root) as Hlen.
  { unfold root at 2. rewrite Hbase.
    apply (splitext_root_length _ "predictions"); [|done].
    rewrite !contains_char_app, Hroot, basename_no_sep. done. }
  rewrite !length_append in Hlen. simpl in Hlen. lia.
Qed.

Lemma translate_no_char c d s :
  c ≠ d → PyStr.contains (String c EmptyString) (PyStr.translate c d s) = false.
Proof.
  intros Hcd. induction s as [|x s IH]; [done|].
  cbn [PyStr.translate]. rewrite contains_char_cons, IH, orb_false_r.
  destruct (Ascii.eqb_spec x c) as [->|Hx].
  - by destruct (Ascii.eqb_spec d c).
  - by destruct (Ascii.eqb_spec x c).
Qed.

Lemma alias_no_sep alias name :
  MODEL_CHECKPOINTS !! alias = Some name → PyStr.contains "/" alias = false.
Proof.
  revert alias name.
  apply (map_Forall_to_list (λ alias _, PyStr.contains "/" alias = false)).
  vm_compute. repeat constructor.
Qed.

End PathFacts.

(** ** More on running the script *)

Section MoreRunFacts.
Context `{Library}.

Lemma BatchSampler_sizes {A : Type} batch_size (sampler : list A) :
  0 < batch_size →
  Forall (λ batch, 0 < length batch ≤ batch_size) (BatchSampler batch_size sampler).
Proof.
  intros HB. apply Forall_lookup. intros i batch Hi.
  rewrite BatchSampler_lookup in Hi by done.
  case_bool_decide; [|done]. injection Hi as <-.
  rewrite length_take, length_drop. lia.
Qed.

Lemma for_each_app {A : Type} (l1 l2 : list A) (body : A → M unit) w :
  for_each (l1 ++ l2) body w
  = match for_each l1 body w with
    | (Returned _, w1) => for_each l2 body w1
    | (Raised e, w1) => (Raised e, w1)
    end.
Proof.
  revert w. induction l1 as [|x l1 IH]; intros w; [done|].
  cbn [app for_each]. unfold mbind, M_bind.
  destruct (body x w) as [[[]|e] w1]; [apply IH|done].
Qed.

(** The model is called for batches that are neither empty nor longer
    than the indices they come from. *)
Lemma step_batches m tokenizer data f indices w cur :
  files w !! f = Some cur →
  0 < length indices ≤ BATCH_SIZE →
  ∃ o out evs,
    step m tokenizer data f indices w
    = (o, World (<[f := cur +:+ out]> (files w)) (log w ++ evs))
    ∧ Forall (loop_event f) evs ∧ Forall batch_bounded evs.
Proof.
  intros Hf Hsize.
  assert (∀ evs, World (files w) (log w ++ evs)
                 = World (<[f := cur +:+ EmptyString]> (files w)) (log w ++ evs))
    as Hsame by (intros; by rewrite append_nil_r, insert_id).
  destruct (fetch data indices) as [batch|e] eqn:Hfetch; cycle 1.
  { exists (Raised e), EmptyString, []. split; [|by split; constructor].
    unfold step. rewrite (bind_lift_Raised _ _ _ e) by done.
    by rewrite <-Hsame, app_nil_r, world_eta. }
  assert (batch_bounded (EvGenerate batch)) as Hb.
  { unfold batch_bounded. by rewrite (comprehension_length _ _ _ Hfetch). }
  destruct (decode_batch m tokenizer batch) as [decoded|e] eqn:Hdec.
  - eexists _, _, _. split; [by apply step_ok|]. split.
    + constructor; [done|]. apply Forall_map, Forall_true. by intros ?.
    + constructor; [done|]. apply Forall_map, Forall_true. by intros ?.
  - eexists (Raised e), EmptyString, _. rewrite <-Hsame.
    split; [by apply step_raises|].
    destruct (reaches_model tokenizer batch); split;
      first [by apply Forall_nil | by apply Forall_singleton].
Qed.

Lemma loop_batches m tokenizer data f batches w cur :
  files w !! f = Some cur →
  Forall (λ indices : list nat, 0 < length indices ≤ BATCH_SIZE) batches →
  ∃ o out evs,
    for_each batches (step m tokenizer data f) w
    = (o, World (<[f := cur +:+ out]> (files w)) (log w ++ evs))
    ∧ Forall (loop_event f) evs ∧ Forall batch_bounded evs.
Proof.
  intros Hf Hsizes. revert w cur Hf.
  induction Hsizes as [|indices batches Hsize _ IH]; intros w cur Hf.
  - exists (Returned tt), EmptyString, []. split; [|by split; constructor]. simpl.
    by rewrite append_nil_r, insert_id, app_nil_r, world_eta.
  - destruct (step_batches m tokenizer data f indices w cur Hf Hsize)
      as (o & out & evs & Hstep & Hevs & Hsz).
    cbn [for_each]. destruct o as [[]|e].
    + erewrite bind_Returned by done.
      edestruct (IH (World (<[f := cur +:+ out]> (files w)) (log w ++ evs)))
        as (o' & out' & evs' & -> & Hevs' & Hsz'); [apply lookup_insert_eq|].
      exists o', (out +:+ out'), (evs ++ evs'). simpl.
      rewrite insert_insert_eq, append_assoc, <-app_assoc.
      split; [done|]. split; by apply Forall_app.
    + exists (Raised e), out, evs. split; [|done]. by erewrite bind_Raised.
Qed.

(** Past the checks of the options, a run either fails before it opens
    the output file, having at most loaded the tokenizer and opened the
    dataset, or it opens the output file and enters the loop. *)
Lemma main_outcome a w name label :
  check_args a = Returned tt →
  resolve_model a = Returned (name, label) →
  (∃ e evs,
     main a w = (Raised e, World (files w) (log w ++ EvLoadModel name :: evs))
     ∧ (evs = [] ∨ evs = [EvLoadTokenizer name]
        ∨ ∃ path, data_path a = Some path
                  ∧ evs = [EvLoadTokenizer name; EvOpenRead path]))
  ∨ (∃ path o out evs,
       data_path a = Some path
       ∧ main a w
         = (o, World (<[predictions_filename label path := out]> (files w))
                     (log w ++ EvLoadModel name :: EvLoadTokenizer name
                        :: EvOpenRead path
                        :: EvOpenWrite (predictions_filename label path) :: evs))
       ∧ Forall (loop_event (predictions_filename label path)) evs
       ∧ Forall batch_bounded evs).
Proof.
  intros Hc Hr.
  destruct (AutoModel_from_pretrained name) as [m|] eqn:Hm; cycle 1.
  { left. exists LibraryError, []. split; [|by left].
    unfold main.
    rewrite (bind_lift_Returned _ _ _ tt) by done.
    rewrite (bind_lift_Returned _ _ _ (name, label)) by done.
    rewrite bind_emit. by rewrite (bind_lift_Raised _ _ _ LibraryError) by by rewrite Hm. }
  destruct (AutoTokenizer_from_pretrained name) as [tokenizer|] eqn:Ht; cycle 1.
  { left. exists LibraryError, [EvLoadTokenizer name].
    split; [|by right; left].
    unfold main.
    rewrite (bind_lift_Returned _ _ _ tt) by done.
    rewrite (bind_lift_Returned _ _ _ (name, label)) by done.
    rewrite bind_emit. rewrite (bind_lift_Returned _ _ _ m) by by rewrite Hm.
    rewrite bind_emit.
    rewrite (bind_lift_Raised _ _ _ LibraryError) by by rewrite Ht.
    simpl. by rewrite <-app_assoc. }
  assert (∀ e w1,
    JSONDataset_init (data_path a)
      (World (files w) ((log w ++ [EvLoadModel name]) ++ [EvLoadTokenizer name]))
    = (Raised e, w1) →
    main a w = (Raised e, w1)) as Hfail.
  { intros e w1 Hinit. unfold main.
    rewrite (bind_lift_Returned _ _ _ tt) by done.
    rewrite (bind_lift_Returned _ _ _ (name, label)) by done.
    rewrite bind_emit. rewrite (bind_lift_Returned _ _ _ m) by by rewrite Hm.
    rewrite bind_emit.
    rewrite (bind_lift_Returned _ _ _ tokenizer) by by rewrite Ht.
    by erewrite bind_Raised. }
  destruct (data_path a) as [path|] eqn:Hp; cycle 1.
  { left. exists TypeError, [EvLoadTokenizer name].
    split; [|by right; left].
    rewrite (Hfail TypeError _ eq_refl). by rewrite <-app_assoc. }
  destruct (files w !! path) as [text|] eqn:Hf; cycle 1.
  { left. exists (FileNotFoundError path), [EvLoadTokenizer name; EvOpenRead path].
    split; [|right; right; by exists path]. erewrite Hfail; cycle 1.
    { unfold JSONDataset_init, open_read. erewrite bind_Raised; [done|].
      rewrite bind_emit. unfold lookup_file. simpl. by rewrite Hf. }
    simpl. by rewrite <-!app_assoc. }
  destruct (comprehension
              (λ line, or_raise (JSONDecodeError line) (json_loads line))
              (lines text)) as [records|e] eqn:Hrec; cycle 1.
  { left. exists e, [EvLoadTokenizer name; EvOpenRead path].
    split; [|right; right; by exists path]. erewrite Hfail; cycle 1.
    { rewrite (JSONDataset_init_run path text) by done. by rewrite Hrec. }
    simpl. by rewrite <-!app_assoc. }
  right. apply parse_lines in Hrec.
  set (f := predictions_filename label path).
  destruct (loop_batches m tokenizer records f (DataLoader records BATCH_SIZE)
              (started w name path f) EmptyString)
    as (o & out & evs & Hloop & Hevs & Hsz); [apply lookup_insert_eq| |].
  { apply (BatchSampler_sizes BATCH_SIZE). unfold BATCH_SIZE. lia. }
  exists path, o, out, evs. split; [done|]. split; [|done].
  rewrite (main_run a w name label m tokenizer path text records) by done.
  fold f. rewrite Hloop. simpl. by rewrite insert_insert_eq, <-app_assoc.
Qed.

End MoreRunFacts.

Section FailureFacts.
Context `{Library}.

Lemma main_model_fails a w name label :
  check_args a = Returned tt →
  resolve_model a = Returned (name, label) →
  AutoModel_from_pretrained name = None →
  main a w = (Raised LibraryError, World (files w) (log w ++ [EvLoadModel name])).
Proof.
  intros Hc Hr Hm. unfold main.
  rewrite (bind_lift_Returned _ _ _ tt) by done.
  rewrite (bind_lift_Returned _ _ _ (name, label)) by done.
  rewrite bind_emit.
  by rewrite (bind_lift_Raised _ _ _ LibraryError) by by rewrite Hm.
Qed.

Lemma main_tokenizer_fails a w name label m :
  check_args a = Returned tt →
  resolve_model a = Returned (name, label) →
  AutoModel_from_pretrained name = Some m →
  AutoTokenizer_from_pretrained name = None →
  main a w
  = (Raised LibraryError,
     World (files w) (log w ++ [EvLoadModel name; EvLoadTokenizer name])).
Proof.
  intros Hc Hr Hm Ht. unfold main.
  rewrite (bind_lift_Returned _ _ _ tt) by done.
  rewrite (bind_lift_Returned _ _ _ (name, label)) by done.
  rewrite bind_emit. rewrite (bind_lift_Returned _ _ _ m) by by rewrite Hm.
  rewrite bind_emit.
  rewrite (bind_lift_Raised _ _ _ LibraryError) by by rewrite Ht.
  simpl. by rewrite <-app_assoc.
Qed.

Lemma main_dataset_fails a w name label m tokenizer e w1 :
  check_args a = Returned tt →
  resolve_model a = Returned (name, label) →
  AutoModel_from_pretrained name = Some m →
  AutoTokenizer_from_pretrained name = Some tokenizer →
  JSONDataset_init (data_path a)
    (World (files w) (log w ++ [EvLoadModel name; EvLoadTokenizer name]))
  = (Raised e, w1) →
  main a w = (Raised e, w1).
Proof.
  intros Hc Hr Hm Ht Hinit. unfold main.
  rewrite (bind_lift_Returned _ _ _ tt) by done.
  rewrite (bind_lift_Returned _ _ _ (name, label)) by done.
  rewrite bind_emit. rewrite (bind_lift_Returned _ _ _ m) by by rewrite Hm.
  rewrite bind_emit.
  rewrite (bind_lift_Returned _ _ _ tokenizer) by by rewrite Ht.
  erewrite bind_Raised; [done|]. simpl. by rewrite <-app_assoc.
Qed.

End FailureFacts.

(** ** The dataset as a sequence *)

(** X1. After a load that succeeds, the length of the dataset is the number
    of lines of the file, item [i] is the value parsed from line [i] for
    every line, and an index from the length on raises [IndexError]. *)
Theorem JSONDataset_items `{Library} (path text : string) (w w' : world)
    (records : list json) :
  files w !! path = Some text →
  JSONDataset_init (Some path) w = (Returned records, w') →
  JSONDataset_len records = length (lines text)
  ∧ (∀ i line,
       lines text !! i = Some line →
       ∃ record, JSONDataset_getitem records i = Returned record
                 ∧ json_loads line = Some record)
  ∧ (∀ i, JSONDataset_len records ≤ i →
          JSONDataset_getitem records i = Raised IndexError).
Proof.
  intros Hf Hinit. rewrite (JSONDataset_init_run path text) in Hinit by done.
  injection Hinit as Hrec _. apply parse_lines in Hrec.
  unfold JSONDataset_len, JSONDataset_getitem. split_and!.
  - symmetry. by eapply Forall2_length.
  - intros i line Hi.
    destruct (Forall2_lookup_l _ _ _ _ _ Hrec Hi) as (record & Hr & Hp).
    exists record. by rewrite Hr.
  - intros i Hi. by rewrite lookup_ge_None_2.
Qed.

(** X1 on the dataset of two records. *)
Lemma JSONDataset_items_witness :
  JSONDataset_len Stub.two_parsed = 2
  ∧ JSONDataset_getitem Stub.two_parsed 2 = Raised IndexError.
Proof.
  destruct (JSONDataset_items (H:=Stub.pegasus) Stub.xsum_path Stub.two_records
              Stub.two_record_world
              (World (files Stub.two_record_world) [EvOpenRead Stub.xsum_path])
              Stub.two_parsed) as (Hlen & _ & Hout); [reflexivity|reflexivity|].
  split; [exact Hlen|]. apply Hout. rewrite Hlen. simpl. lia.
Defined.

(** ** Failures before the output file *)

(** X2. When model and tokenizer load but the dataset cannot be read, the
    run ends with the error of the dataset after both loads and before the
    output file is opened: [TypeError] when [--data_path] is not given,
    [FileNotFoundError] when the file is not there, and the decoding error
    of a line when some line does not parse. No file has changed: a
    predictions file of an earlier run is still as it was. *)
Theorem main_dataset_unreadable `{Library} (a : args) (w : world)
    (name label : string) (m : Model) (tokenizer : Tokenizer) :
  check_args a = Returned tt →
  resolve_model a = Returned (name, label) →
  AutoModel_from_pretrained name = Some m →
  AutoTokenizer_from_pretrained name = Some tokenizer →
  match data_path a with
  | None =>
      main a w
      = (Raised TypeError,
         World (files w) (log w ++ [EvLoadModel name; EvLoadTokenizer name]))
  | Some path =>
      match files w !! path with
      | None =>
          main a w
          = (Raised (FileNotFoundError path),
             World (files w)
                   (log w ++ [EvLoadModel name; EvLoadTokenizer name;
                              EvOpenRead path]))
      | Some text =>
          ∀ line, line ∈ lines text → json_loads line = None →
            ∃ bad, bad ∈ lines text ∧ json_loads bad = None
              ∧ main a w
                = (Raised (JSONDecodeError bad),
                   World (files w)
                         (log w ++ [EvLoadModel name; EvLoadTokenizer name;
                                    EvOpenRead path]))
      end
  end.
Proof.
  intros Hc Hr Hm Ht.
  destruct (data_path a) as [path|] eqn:Hp.
  - destruct (files w !! path) as [text|] eqn:Hf.
    + intros line Hin Hbad.
      destruct (comprehension
                  (λ l, or_raise (JSONDecodeError l) (json_loads l))
                  (lines text)) as [records|e] eqn:Hrec.
      * apply comprehension_Forall2 in Hrec.
        apply list_elem_of_lookup in Hin as [i Hi].
        destruct (Forall2_lookup_l _ _ _ _ _ Hrec Hi) as (r & _ & Hline).
        by rewrite Hbad in Hline.
      * destruct (comprehension_first_failure _ _ _ Hrec)
          as (before & bad & after & Hl & _ & Hx).
        destruct (json_loads bad) eqn:Hbad'; [done|]. injection Hx as <-.
        exists bad. split_and!; [|done|].
        { rewrite Hl. apply elem_of_app. right. apply elem_of_cons. by left. }
        apply (main_dataset_fails a w name label m tokenizer); try done.
        rewrite Hp, (JSONDataset_init_run path text) by done.
        rewrite Hrec. simpl. by rewrite <-app_assoc.
    + apply (main_dataset_fails a w name label m tokenizer); try done.
      rewrite Hp. unfold JSONDataset_init, open_read.
      erewrite bind_Raised; [done|]. erewrite bind_Returned by reflexivity.
      unfold lookup_file. simpl. by rewrite Hf, <-app_assoc.
  - apply (main_dataset_fails a w name label m tokenizer); try done.
    by rewrite Hp.
Qed.

(** X2 on a dataset with a line that does not parse. *)
Lemma main_dataset_unreadable_witness :
  ∃ bad,
    main (H:=Stub.pegasus) (Stub.by_alias "bart-xsum") StubMore.broken_world
    = (Raised (JSONDecodeError bad),
       World (files StubMore.broken_world)
             [EvLoadModel "facebook/bart-large-xsum";
              EvLoadTokenizer "facebook/bart-large-xsum";
              EvOpenRead "data/xsum.jsonl"]).
Proof.
  pose proof (main_dataset_unreadable (H:=Stub.pegasus)
                (Stub.by_alias "bart-xsum") StubMore.broken_world
                "facebook/bart-large-xsum" "bart-xsum" tt tt
                eq_refl eq_refl eq_refl eq_refl) as Hrun.
  destruct (Hrun "oops") as (bad & _ & _ & Hmain); [|reflexivity|].
  - apply list_elem_of_lookup. by exists 1.
  - exists bad. exact Hmain.
Defined.

(** X3. When the model does not load, the run ends with the library's
    error having done nothing else; when the model loads and the tokenizer
    does not, likewise after the two attempts. In both cases no file has been
    opened and none has changed. *)
Theorem main_load_fails `{Library} (a : args) (w : world) (name label : string) :
  check_args a = Returned tt →
  resolve_model a = Returned (name, label) →
  (AutoModel_from_pretrained name = None →
   main a w
   = (Raised LibraryError, World (files w) (log w ++ [EvLoadModel name])))
  ∧ (is_Some (AutoModel_from_pretrained name) →
     AutoTokenizer_from_pretrained name = None →
     main a w
     = (Raised LibraryError,
        World (files w) (log w ++ [EvLoadModel name; EvLoadTokenizer name]))).
Proof.
  intros Hc Hr. split.
  - by apply (main_model_fails a w name label).
  - intros [m Hm] Ht. by apply (main_tokenizer_fails a w name label m).
Qed.

(** X3 with a library that has no tokenizer. *)
Lemma main_load_fails_witness :
  main (H:=StubMore.no_tokenizer) Stub.by_identifier Stub.two_record_world
  = (Raised LibraryError,
     World (files Stub.two_record_world)
           [EvLoadModel "google/pegasus-xsum"; EvLoadTokenizer "google/pegasus-xsum"]).
Proof.
  destruct (main_load_fails (H:=StubMore.no_tokenizer) Stub.by_identifier
              Stub.two_record_world "google/pegasus-xsum" "google-pegasus-xsum"
              eq_refl eq_refl) as [_ Htok].
  apply Htok; [by eexists|reflexivity].
Defined.

(** ** A batch that fails *)

(** X4. The output is written batch by batch. When the library decodes
    the batches before some batch and raises for that batch (in the
    collation, at the ["document"] entry, or in tokenizer, model or
    decoder), the run ends with that very exception; the output file holds
    the lines of the batches before and not one line of the failing batch;
    and the run has done nothing for the batches behind it: after the four
    events of the start, its events are those of the batches before, one
    call of the model and the writes each, then at most the call of the
    model for the failing batch, and nothing more. *)
Theorem main_partial_output `{Library} (a : args) (w : world)
    (name label path text : string) (m : Model) (tokenizer : Tokenizer)
    (records : list json) (good rest : list (list json)) (bad : list json)
    (decoded_batches : list (list string)) (e : exn) :
  check_args a = Returned tt →
  resolve_model a = Returned (name, label) →
  AutoModel_from_pretrained name = Some m →
  AutoTokenizer_from_pretrained name = Some tokenizer →
  data_path a = Some path →
  files w !! path = Some text →
  Forall2 parses (lines text) records →
  BatchSampler BATCH_SIZE records = good ++ bad :: rest →
  Forall2 (λ batch decoded, decode_batch m tokenizer batch = Returned decoded)
    good decoded_batches →
  decode_batch m tokenizer bad = Raised e →
  main a w
  = (Raised e,
     World (<[predictions_filename label path
              := written (map output_line (concat decoded_batches))]> (files w))
           (log w
            ++ [EvLoadModel name; EvLoadTokenizer name; EvOpenRead path;
                EvOpenWrite (predictions_filename label path)]
            ++ concat (zip_with (batch_events (predictions_filename label path))
                         good decoded_batches)
            ++ (if reaches_model tokenizer bad then [EvGenerate bad] else []))).
Proof.
  intros Hc Hr Hm Ht Hp Hf Hrec Hsplit Hgood Hbad.
  set (f := predictions_filename label path).
  rewrite (main_run a w name label m tokenizer path text records) by done.
  fold f.
  pose proof (fetch_batches records BATCH_SIZE) as Hfetch.
  rewrite Hsplit in Hfetch.
  apply Forall2_app_inv_r in Hfetch as (gi & tail & Hgi & Htail & ->).
  apply Forall2_cons_inv_r in Htail as (bi & ri & Hbi & _ & ->).
  rewrite for_each_app.
  rewrite (loop_run m tokenizer records f gi good decoded_batches
             (started w name path f) EmptyString Hgi Hgood)
    by apply lookup_insert_eq.
  cbn [for_each].
  erewrite bind_Raised by (by eapply step_raises).
  simpl. by rewrite insert_insert_eq, <-!app_assoc.
Qed.

(** X4 on nine records of which the last has no document: the eight lines
    of the first batch are in the file, the model was called once, and the
    exception is that of the subscript. *)
Lemma main_partial_output_witness :
  main (H:=Stub.pegasus) (Stub.by_alias "bart-xsum") StubMore.nine_record_world
  = (Raised (KeyError "document"),
     World (<["bart-xsum.xsum.predictions"
              := written (map (λ d, "About " +:+ d +:+ newline)
                            StubMore.eight_names)]>
              (files StubMore.nine_record_world))
           ([EvLoadModel "facebook/bart-large-xsum";
             EvLoadTokenizer "facebook/bart-large-xsum";
             EvOpenRead Stub.xsum_path;
             EvOpenWrite "bart-xsum.xsum.predictions";
             EvGenerate (map (λ d, JObject [("document", JString d)])
                           StubMore.eight_names)]
            ++ map (λ d, EvWrite "bart-xsum.xsum.predictions"
                           ("About " +:+ d +:+ newline))
                 StubMore.eight_names)).
Proof.
  rewrite (main_partial_output (H:=Stub.pegasus) (Stub.by_alias "bart-xsum")
             StubMore.nine_record_world "facebook/bart-large-xsum" "bart-xsum"
             Stub.xsum_path StubMore.nine_records tt tt
             (map (λ d, JObject [("document", JString d)]) StubMore.eight_names
                ++ [JObject []])
             [map (λ d, JObject [("document", JString d)]) StubMore.eight_names]
             [] [JObject []]
             [map (λ d, "About<n>" +:+ d) StubMore.eight_names]
             (KeyError "document")); try reflexivity.
  - repeat constructor.
  - repeat constructor.
Defined.

(** ** What a run touches *)

Section FootprintFacts.
Context `{Library}.

(** The files after a run, whatever its end: as they were, or as they were
    but for the output file. *)
Lemma main_files a w :
  files (main a w).2 = files w
  ∨ ∃ name label path out,
      resolve_model a = Returned (name, label) ∧ data_path a = Some path
      ∧ files (main a w).2 = <[predictions_filename label path := out]> (files w).
Proof.
  destruct (check_args a) as [[]|e] eqn:Hc; cycle 1.
  { left. by rewrite (main_check_fails a w e). }
  destruct (resolve_model a) as [[name label]|e] eqn:Hr; cycle 1.
  { left. by rewrite (main_resolve_fails a w e). }
  destruct (main_outcome a w name label Hc Hr)
    as [(e & evs & -> & _)|(path & o & out & evs & Hp & -> & _)].
  - by left.
  - right. by exists name, label, path, out.
Qed.

(** The events of a run, whatever its end: none when the options are
    rejected; otherwise the load of the model first, and no event on a file
    for writing but on the output file. *)
Lemma main_log a w :
  ∃ evs,
    log (main a w).2 = log w ++ evs
    ∧ (evs = [] ↔ (∃ e, check_args a = Raised e) ∨ (∃ e, resolve_model a = Raised e))
    ∧ Forall (λ ev,
        match ev with
        | EvOpenWrite p | EvWrite p _ =>
            ∃ name label path,
              resolve_model a = Returned (name, label) ∧ data_path a = Some path
              ∧ p = predictions_filename label path
        | EvGenerate batch => 0 < length batch ≤ BATCH_SIZE
        | _ => True
        end) evs.
Proof.
  destruct (check_args a) as [[]|e] eqn:Hc; cycle 1.
  { exists []. rewrite (main_check_fails a w e) by done. simpl.
    rewrite app_nil_r. split_and!; [done| |constructor]. split; eauto. }
  destruct (resolve_model a) as [[name label]|e] eqn:Hr; cycle 1.
  { exists []. rewrite (main_resolve_fails a w e) by done. simpl.
    rewrite app_nil_r. split_and!; [done| |constructor]. split; eauto. }
  assert (∀ evs : list event,
    EvLoadModel name :: evs = []
    ↔ (∃ e, Returned () = Raised e)
      ∨ (∃ e, @Returned (string * string) (name, label) = Raised e))
    as Hne.
  { intros evs. split; [done|]. by intros [[??]|[??]]. }
  destruct (main_outcome a w name label Hc Hr)
    as [(e & evs & -> & Hevs)|(path & o & out & evs & Hp & -> & Hevs & Hsz)].
  - exists (EvLoadModel name :: evs). simpl. split_and!; [done|apply Hne|].
    destruct Hevs as [->|[->|(path & _ & ->)]]; by repeat constructor.
  - exists (EvLoadModel name :: EvLoadTokenizer name :: EvOpenRead path
            :: EvOpenWrite (predictions_filename label path) :: evs).
    simpl. split_and!; [done|apply Hne|].
    do 3 (constructor; [done|]).
    constructor; [by exists name, label, path|].
    apply Forall_forall. intros ev Hin.
    pose proof (proj1 (Forall_forall _ _) Hevs ev Hin) as Hev.
    pose proof (proj1 (Forall_forall _ _) Hsz ev Hin) as Hb.
    destruct ev; try done.
    simpl in Hev. by exists name, label, path.
Qed.

Lemma resolve_label_no_sep a name label :
  resolve_model a = Returned (name, label) → PyStr.contains "/" label = false.
Proof.
  unfold resolve_model. destruct (truthy (model a)).
  - destruct (MODEL_CHECKPOINTS !! value (model a)) as [checkpoint|] eqn:Hl; [|done].
    intros [= _ <-]. by eapply alias_no_sep.
  - intros Heq.
    assert (label = PyStr.translate "/" "-" (value (model_name_or_path a)))
      as -> by (rewrite <-replace_char; congruence).
    by apply translate_no_char.
Qed.

End FootprintFacts.



(** X7. The output file is never the dataset file, whatever the label and
    the path: its name is neither the dataset path nor the base name of that
    path. So a run, however it ends, leaves its dataset as it was. *)
Theorem main_keeps_dataset `{Library} (a : args) (w : world) (path : string) :
  data_path a = Some path →
  (∀ label, predictions_filename label path ≠ path
            ∧ predictions_filename label path ≠ PosixPath.basename path)
  ∧ files (main a w).2 !! path = files w !! path.
Proof.
  intros Hp. split.
  - intros label. split; [apply predictions_filename_fresh|].
    replace (predictions_filename label path)
      with (predictions_filename label (PosixPath.basename path)).
    + apply predictions_filename_fresh.
    + unfold predictions_filename.
      by rewrite (basename_whole (PosixPath.basename path))
        by apply basename_no_sep.
  - destruct (main_files a w)
      as [->|(name & label & path' & out & Hr & Hp' & ->)]; [done|].
    rewrite Hp in Hp'. injection Hp' as <-.
    apply lookup_insert_ne, predictions_filename_fresh.
Qed.

(** X7 on the dataset of two records. *)
Lemma main_keeps_dataset_witness :
  files (main (H:=Stub.pegasus) (Stub.by_alias "bart-xsum")
           Stub.two_record_world).2 !! Stub.xsum_path
  = Some Stub.two_records.
Proof.
  destruct (main_keeps_dataset (H:=Stub.pegasus) (Stub.by_alias "bart-xsum")
              Stub.two_record_world Stub.xsum_path eq_refl) as [_ Hkeep].
  rewrite Hkeep. reflexivity.
Defined.

(** X8. Every path a run opens for writing or writes to has no ['/'] in
    it: the predictions file is made in the working directory, whatever
    directory the dataset is in and whatever the model identifier. *)
Theorem main_writes_in_cwd `{Library} (a : args) (w : world) :
  ∃ evs,
    log (main a w).2 = log w ++ evs
    ∧ Forall (λ ev, ∀ p, written_path ev = Some p → PyStr.contains "/" p = false)
        evs.
Proof.
  destruct (main_log a w) as (evs & Hlog & _ & Hevs).
  exists evs. split; [done|].
  eapply Forall_impl; [exact Hevs|].
  intros [] Hev p' [= <-];
    destruct Hev as (name' & label & path' & Hr & _ & ->);
    rewrite predictions_filename_sep; by eapply resolve_label_no_sep.
Qed.

(** X8 on a run by identifier over a dataset in a directory. *)
Lemma main_writes_in_cwd_witness :
  log (main (H:=Stub.pegasus) Stub.by_identifier Stub.two_record_world).2 !! 3
  = Some (EvOpenWrite "google-pegasus-xsum.xsum.predictions")
  ∧ PyStr.contains "/" "google-pegasus-xsum.xsum.predictions" = false.
Proof.
  split; [reflexivity|].
  destruct (main_writes_in_cwd (H:=Stub.pegasus) Stub.by_identifier
              Stub.two_record_world) as (evs & Hlog & Hevs).
  simpl in Hlog.
  apply (proj1 (Forall_lookup _ _) Hevs 3
           (EvOpenWrite "google-pegasus-xsum.xsum.predictions"));
    [|reflexivity].
  rewrite <-Hlog. reflexivity.
Defined.

(** X9. A run leaves the world exactly as it was, no model loaded and no
    file opened, if and only if the options are rejected: both options or
    neither have a non-empty value, or the non-empty alias is not a key of
    the table. In every other case the run has loaded, or tried to load, a
    model. *)
Theorem main_no_effect_iff `{Library} (a : args) (w : world) :
  (main a w).2 = w
  ↔ truthy (model a) = truthy (model_name_or_path a)
    ∨ (truthy (model a) = true ∧ MODEL_CHECKPOINTS !! value (model a) = None).
Proof.
  assert ((∃ e, check_args a = Raised e)
          ↔ truthy (model a) = truthy (model_name_or_path a)) as Hcheck.
  { unfold check_args.
    destruct (truthy (model a)), (truthy (model_name_or_path a)); simpl;
      split; try done; eauto; by intros [??]. }
  assert ((∃ e, resolve_model a = Raised e)
          ↔ truthy (model a) = true ∧ MODEL_CHECKPOINTS !! value (model a) = None)
    as Hresolve.
  { unfold resolve_model. destruct (truthy (model a)).
    - destruct (MODEL_CHECKPOINTS !! value (model a)); split;
        try done; eauto; try (by intros [??]); by intros [??].
    - split; [by intros [??]|by intros [??]]. }
  rewrite <-Hcheck, <-Hresolve.
  destruct (main_log a w) as (evs & Hlog & Hnil & _).
  rewrite <-Hnil. split.
  - intros Hw. rewrite Hw in Hlog.
    rewrite <-(app_nil_r (log w)) in Hlog at 1. by apply app_inv_head in Hlog.
  - intros ->. destruct (proj1 Hnil eq_refl) as [[e He]|[e He]].
    + by rewrite (main_check_fails a w e).
    + destruct (check_args a) as [[]|e'] eqn:Hc.
      * by rewrite (main_resolve_fails a w e).
      * by rewrite (main_check_fails a w e').
Qed.

(** X9 on an alias that the table does not hold. *)
Lemma main_no_effect_iff_witness :
  (main (H:=Stub.pegasus) (Stub.by_alias "bart-large") Stub.two_record_world).2
  = Stub.two_record_world.
Proof.
  apply (main_no_effect_iff (H:=Stub.pegasus)). right. split; reflexivity.
Defined.

(** ** More on the post-processor *)

Section MorePostprocessFacts.

Lemma postprocess_one_single_line_inv s :
  single_line (postprocess_one s) → single_line s.
Proof.
  induction s as [|b IH|c s Hp IH] using scan_ind; [done| |].
  - rewrite postprocess_one_marker, marker_app.
    rewrite append_cons, append_nil_l, !single_line_cons.
    intros [_ Hb]. split_and!; try done. by apply IH.
  - rewrite postprocess_one_copy by done. rewrite !single_line_cons.
    intros [??]; auto.
Qed.

Lemma concat_length_marker pieces :
  Forall marker_free pieces →
  String.length (String.concat marker pieces)
  = String.length (String.concat " " pieces) + 2 * (length pieces - 1).
Proof.
  induction 1 as [|p [|q qs] _ _ IH]; [done|simpl; lia|].
  rewrite !concat_cons, !length_append, IH. simpl. lia.
Qed.

End MorePostprocessFacts.

(** X10. No string that the post-processor returns holds the marker
    ['<n>'], whatever the decoded strings were: the replacement does not
    bring a new marker about. *)
Theorem postprocess_data_marker_free (decoded : list string) :
  Forall marker_free (postprocess_data decoded).
Proof.
  unfold postprocess_data. apply Forall_map, Forall_true.
  apply postprocess_one_marker_free.
Qed.

(** X11. The post-processor neither removes nor brings in a line feed: a
    processed string holds one exactly when the decoded string did. *)
Theorem postprocess_data_line_feeds (decoded : list string) :
  Forall single_line (postprocess_data decoded) ↔ Forall single_line decoded.
Proof.
  unfold postprocess_data. rewrite Forall_map.
  split; intros Hall; (eapply Forall_impl; [exact Hall|]); intros x.
  - apply postprocess_one_single_line_inv.
  - apply postprocess_one_single_line.
Qed.

(** X12. The post-processor never makes a string longer: the result is
    shorter by two characters for every marker, so for a string split at
    its markers into [n] marker-free pieces by [2 * (n - 1)], and it is as
    long as the decoded string exactly when that holds no marker. *)
Theorem postprocess_one_length (x : string) :
  String.length (postprocess_one x) ≤ String.length x
  ∧ (String.length (postprocess_one x) = String.length x ↔ marker_free x)
  ∧ (∀ pieces,
       Forall marker_free pieces → x = String.concat marker pieces →
       String.length x
       = String.length (postprocess_one x) + 2 * (length pieces - 1)).
Proof.
  assert (∀ pieces,
    Forall marker_free pieces → x = String.concat marker pieces →
    String.length x
    = String.length (postprocess_one x) + 2 * (length pieces - 1)) as Hlen.
  { intros pieces Hf ->. rewrite postprocess_one_join by done.
    by apply concat_length_marker. }
  destruct (marker_split x) as (pieces & Hne & Hf & Hx).
  pose proof (Hlen pieces Hf Hx) as Hl.
  split_and!; [lia| |done].
  split.
  - intros Heq. assert (length pieces = 1) as Hone.
    { destruct pieces; [done|]. simpl in *. lia. }
    destruct pieces as [|p [|??]]; try done. simpl in Hx. subst x.
    by inversion Hf.
  - intros Hfree. by rewrite postprocess_one_free.
Qed.

(** X12 on a string with two markers. *)
Lemma postprocess_one_length_witness :
  String.length "a<n>b<n>c" = String.length (postprocess_one "a<n>b<n>c") + 4.
Proof.
  destruct (postprocess_one_length "a<n>b<n>c") as (_ & _ & Hlen).
  apply (Hlen ["a"; "b"; "c"]); [|reflexivity].
  repeat constructor; apply contains_free; reflexivity.
Defined.

(** ** Reading the file line by line *)

(** X13. The iteration over the file loses nothing and cuts after every
    line feed: the lines put one behind the other are the text of the file,
    every line is a text without line feed followed by one line feed, but
    for the last line, which may go without it and then is not empty. *)
Theorem lines_cut_at_line_feeds (text : string) :
  written (lines text) = text
  ∧ ∀ i line,
      lines text !! i = Some line →
      ∃ p, single_line p
           ∧ (line = p +:+ newline
              ∨ (line = p ∧ p ≠ EmptyString ∧ S i = length (lines text))).
Proof.
  induction text as [|c text [IHw IHl]]; [by split|].
  destruct (Ascii.eqb_spec c LF) as [->|Hc].
  - rewrite lines_cons_LF. split.
    + cbn [written foldr]. fold (written (lines text)). by rewrite IHw.
    + intros [|i] line Hi; simpl in Hi.
      * injection Hi as <-. exists EmptyString. split; [done|by left].
      * destruct (IHl i line Hi) as (p & Hp & [->|(-> & Hne & Hlast)]);
          exists p; (split; [done|]); [by left|right].
        simpl. by rewrite Hlast.
  - rewrite lines_cons_other by done.
    destruct (lines text) as [|l ls] eqn:Hlines.
    + apply lines_empty in Hlines as ->. split; [done|].
      intros [|i] line Hi; [|done]. injection Hi as <-.
      exists (String c EmptyString). split; [by apply single_line_cons|].
      right. done.
    + split.
      * cbn [written foldr] in *. by rewrite append_cons, IHw.
      * intros [|i] line Hi; simpl in Hi.
        -- injection Hi as <-.
           destruct (IHl 0 l eq_refl) as (p & Hp & [->|(-> & Hne & Hlast)]);
             exists (String c p); (split; [by apply single_line_cons|]).
           ++ by left.
           ++ right. done.
        -- destruct (IHl (S i) line Hi) as (p & Hp & Hcase).
           exists p. split; [done|exact Hcase].
Qed.

(** X13 on a text whose last line has no line feed. *)
Lemma lines_cut_at_line_feeds_witness :
  lines ("ab" +:+ newline +:+ "c") = ["ab" +:+ newline; "c"]
  ∧ ∃ p, single_line p ∧ "c" = p ∧ p ≠ EmptyString.
Proof.
  split; [reflexivity|].
  destruct (lines_cut_at_line_feeds ("ab" +:+ newline +:+ "c")) as [_ Hl].
  destruct (Hl 1 "c" eq_refl) as (p & Hp & [Hc|(Hc & Hne & _)]).
  - exfalso. destruct p as [|x [|y p]]; discriminate Hc.
  - by exists p.
Defined.

(** ** The name of the output file *)

Section MorePathFacts.

Lemma basename_dir p :
  ∃ dir, p = dir +:+ PosixPath.basename p
         ∧ (dir = EmptyString ∨ ∃ d, dir = d +:+ "/").
Proof.
  destruct (last_split "/" p) as [Hp|(a & b & -> & Hb)].
  - exists EmptyString. rewrite basename_whole by done. by split; [|left].
  - exists (a +:+ "/"). rewrite basename_last by done.
    split; [by rewrite append_assoc|right; by exists a].
Qed.

Lemma resolve_by_identifier a s :
  truthy (model a) = false →
  model_name_or_path a = Some s →
  resolve_model a = Returned (s, PyStr.translate "/" "-" s).
Proof.
  intros Hm Hs. unfold resolve_model. rewrite Hm, Hs.
  cbn [value default]. by rewrite replace_char.
Qed.

Lemma translate_absent c d s :
  PyStr.contains (String c EmptyString) s = false → PyStr.translate c d s = s.
Proof.
  induction s as [|x s IH]; [done|].
  rewrite contains_char_cons. intros [Hx Hs]%orb_false_iff.
  cbn [PyStr.translate]. by rewrite Hx, IH.
Qed.

End MorePathFacts.

(** X14. The dataset part of the output file name is the dataset path
    without its directory and without its last extension, and nothing else
    is taken away: the path is a directory part that is empty or ends in
    ['/'], then the part that goes into the file name, then an extension
    that is empty or one dot followed by a text without dot; neither of the
    last two holds a ['/']. The extension is taken away whenever there is
    one to take: it is empty only when the part that goes into the file name
    has no dot, or has nothing but dots in front of its last dot; and when
    it is not empty, that part is not made of dots alone. *)
Theorem predictions_filename_dataset_part (label path : string) :
  ∃ dir base ext,
    predictions_filename label path = label +:+ "." +:+ base +:+ ".predictions"
    ∧ path = dir +:+ base +:+ ext
    ∧ (dir = EmptyString ∨ ∃ d, dir = d +:+ "/")
    ∧ PyStr.contains "/" (base +:+ ext) = false
    ∧ (ext = EmptyString
       ∨ ∃ b, ext = String "." b ∧ PyStr.contains "." b = false)
    ∧ (ext = EmptyString →
       ∀ a b, base = a +:+ String "." b → PyStr.contains "." b = false →
              only_dots a = true)
    ∧ (ext ≠ EmptyString → only_dots base = false).
Proof.
  destruct (basename_dir path) as (dir & Hpath & Hdir).
  exists dir, (PosixPath.splitext (PosixPath.basename path)).1,
    (PosixPath.splitext (PosixPath.basename path)).2.
  pose proof (basename_no_sep path) as Hsep.
  split_and!; [done| |done| |apply splitext_ext| |].
  - by rewrite splitext_join.
  - by rewrite splitext_join.
  - destruct (last_split "." (PosixPath.basename path))
      as [Hno|(a0 & b0 & Hbn & Hb0)].
    + rewrite (splitext_no_dot _ Hno). cbn [fst snd].
      intros _ a b Hab _. rewrite Hab, contains_char_app in Hno.
      apply orb_false_iff in Hno as [_ Hno].
      by rewrite contains_char_cons in Hno.
    + rewrite Hbn in Hsep |- *. rewrite (splitext_last_dot a0 b0 Hsep Hb0).
      destruct (only_dots a0) eqn:Hdots; cbn [fst snd]; [|done].
      intros _ a b Hab Hb.
      by destruct (last_split_unique "." a0 b0 a b Hab Hb0 Hb) as [<- _].
  - destruct (last_split "." (PosixPath.basename path))
      as [Hno|(a0 & b0 & Hbn & Hb0)].
    + by rewrite (splitext_no_dot _ Hno).
    + rewrite Hbn in Hsep |- *. rewrite (splitext_last_dot a0 b0 Hsep Hb0).
      by destruct (only_dots a0) eqn:Hdots.
Qed.

(** X15. The label of a model given by identifier does not tell the
    identifier: an identifier with a ['/'] in it and the same identifier with
    ['-'] for every ['/'] are two identifiers with one label, so the runs
    for the two on one dataset write the same predictions file. *)
Theorem resolve_model_label_collision (a : args) (s : string) :
  truthy (model a) = false →
  model_name_or_path a = Some s →
  PyStr.contains "/" s = true →
  ∃ s',
    s' ≠ s
    ∧ resolve_model a = Returned (s, s')
    ∧ resolve_model (Args (model a) (Some s') (data_path a)) = Returned (s', s').
Proof.
  intros Hm Hs Hsep. exists (PyStr.translate "/" "-" s).
  assert (PyStr.contains "/" (PyStr.translate "/" "-" s) = false) as Hno
    by by apply translate_no_char.
  split_and!.
  - intros Heq. rewrite Heq in Hno. congruence.
  - by apply resolve_by_identifier.
  - rewrite (resolve_by_identifier (Args (model a) _ (data_path a))
               (PyStr.translate "/" "-" s) Hm eq_refl).
    by rewrite (translate_absent "/" "-" (PyStr.translate "/" "-" s) Hno).
Qed.

(** X15 on an identifier of the hub. *)
Lemma resolve_model_label_collision_witness :
  ∃ s',
    s' ≠ "google/pegasus-xsum"
    ∧ resolve_model Stub.by_identifier = Returned ("google/pegasus-xsum", s')
    ∧ resolve_model (Args None (Some s') (Some Stub.xsum_path)) = Returned (s', s').
Proof.
  apply (resolve_model_label_collision Stub.by_identifier "google/pegasus-xsum");
    reflexivity.
Defined.

(** ** A library that works record by record *)

(** X16. With a library that works record by record, so that for every
    batch of the run the decoded strings are some function of the single
    records of the batch, in their order, the batching does not show in the
    output: the run ends normally and the predictions file holds, for the
    records of the dataset in their order, the post-processed summary of
    each with its line feed, as if the records had been handled one at a
    time; the batches show in the calls of the model only. *)
Theorem main_output_per_document `{Library} (a : args) (w : world)
    (name label path text : string) (m : Model) (tokenizer : Tokenizer)
    (records : list json) (g : json → string) :
  check_args a = Returned tt →
  resolve_model a = Returned (name, label) →
  AutoModel_from_pretrained name = Some m →
  AutoTokenizer_from_pretrained name = Some tokenizer →
  data_path a = Some path →
  files w !! path = Some text →
  Forall2 parses (lines text) records →
  (∀ batch,
     batch ∈ BatchSampler BATCH_SIZE records →
     decode_batch m tokenizer batch = Returned (map g batch)) →
  main a w
  = (Returned tt,
     World (<[predictions_filename label path
              := written (map (λ record, output_line (g record)) records)]>
              (files w))
           (log w
            ++ [EvLoadModel name; EvLoadTokenizer name; EvOpenRead path;
                EvOpenWrite (predictions_filename label path)]
            ++ concat (map (λ batch,
                         batch_events (predictions_filename label path) batch
                           (map g batch))
                         (BatchSampler BATCH_SIZE records)))).
Proof.
  intros Hc Hr Hm Ht Hp Hf Hrec Hlib.
  set (f := predictions_filename label path).
  rewrite (main_run a w name label m tokenizer path text records) by done.
  fold f.
  assert (concat (BatchSampler BATCH_SIZE records) = records) as Hcat
    by apply (batch_go_concat BATCH_SIZE [] records).
  rewrite (loop_run m tokenizer records f (DataLoader records BATCH_SIZE)
             (BatchSampler BATCH_SIZE records)
             (map (map g) (BatchSampler BATCH_SIZE records))
             (started w name path f) EmptyString
             (fetch_batches records BATCH_SIZE)); cycle 1.
  { apply Forall2_fmap_r, Forall_Forall2_diag, Forall_forall. exact Hlib. }
  { apply lookup_insert_eq. }
  assert (∀ l : list (list json),
            zip_with (batch_events f) l (map (map g) l)
            = map (λ batch, batch_events f batch (map g batch)) l) as Hzip.
  { intros l. induction l as [|b l IH]; [done|]. cbn [map zip_with]. by rewrite IH. }
  unfold started. cbn [files log].
  by rewrite insert_insert_eq, append_nil_l, <-(concat_map g), Hcat, map_map,
    Hzip, <-app_assoc.
Qed.

(** X16 on the two records and a model in the manner of Pegasus. *)
Lemma main_output_per_document_witness :
  main (H:=Stub.pegasus) (Stub.by_alias "bart-xsum") Stub.two_record_world
  = (Returned tt,
     World (<["bart-xsum.xsum.predictions"
              := "About first" +:+ newline +:+ "About second" +:+ newline]>
              (files Stub.two_record_world))
           [EvLoadModel "facebook/bart-large-xsum";
            EvLoadTokenizer "facebook/bart-large-xsum";
            EvOpenRead Stub.xsum_path;
            EvOpenWrite "bart-xsum.xsum.predictions";
            EvGenerate Stub.two_parsed;
            EvWrite "bart-xsum.xsum.predictions" ("About first" +:+ newline);
            EvWrite "bart-xsum.xsum.predictions" ("About second" +:+ newline)]).
Proof.
  rewrite (main_output_per_document (H:=Stub.pegasus) (Stub.by_alias "bart-xsum")
             Stub.two_record_world "facebook/bart-large-xsum" "bart-xsum"
             Stub.xsum_path Stub.two_records tt tt Stub.two_parsed
             (λ record, "About<n>" +:+ default EmptyString (document_text record)));
    try reflexivity.
  - repeat constructor.
  - intros batch Hin.
    change (BatchSampler BATCH_SIZE Stub.two_parsed) with [Stub.two_parsed] in Hin.
    by apply list_elem_of_singleton in Hin as ->.
Defined.
